(** * The API service of the rental-management frontend: token handling

    A shallow embedding of [frontend/src/services/api.js] (the Axios
    instance [api], its request and response interceptors, [login],
    [logout], [getCurrentUser]) and of the session restore in
    [frontend/src/context/AuthContext.js] ([checkAuth]).

    - [localStorage] is a finite map from keys to strings;
    - the backend is an oracle [network] that answers every call from the
      history of the calls made so far;
    - promises are computations in a state-and-exception monad [M]; a
      rejected promise is the [Rejected] outcome;
    - [JSON.stringify] and [JSON.parse] are parameters of the model. *)

From stdpp Require Import gmap strings list fin_maps.

Local Open Scope string_scope.
Local Open Scope Z_scope.
Local Set Warnings "-register-all".

(** ** JavaScript values that travel in request and response bodies *)

Inductive JsValue :=
| JsUndefined
| JsNull
| JsString (s : string)
| JsObject (props : list (string * JsValue)).

(** [String(v)]: the coercion applied by [localStorage.setItem] and by
    template literals.  On an object that has a [toString] property of
    its own the coercion throws a [TypeError]; that case is not
    modelled, and the statements that depend on it ask for a
    [primitive] value. *)
Definition ToString (v : JsValue) : string :=
  match v with
  | JsUndefined => "undefined"
  | JsNull => "null"
  | JsString s => s
  | JsObject _ => "[object Object]"
  end.

(** [obj[k]] on an object literal; a missing property is [undefined]. *)
Fixpoint get_prop (k : string) (props : list (string * JsValue)) : JsValue :=
  match props with
  | [] => JsUndefined
  | (k', v) :: rest => if String.eqb k k' then v else get_prop k rest
  end.

(** [const { k } = v]: a [TypeError] ([None]) on [undefined] and [null],
    [undefined] on a string primitive. *)
Definition destructure (k : string) (v : JsValue) : option JsValue :=
  match v with
  | JsUndefined | JsNull => None
  | JsString _ => Some JsUndefined
  | JsObject props => Some (get_prop k props)
  end.

(** Truthiness of the result of [localStorage.getItem]: [null] and the
    empty string are falsy. *)
Definition truthy (o : option string) : bool :=
  match o with
  | Some s => negb (String.eqb s EmptyString)
  | None => false
  end.

(** ** Requests, responses, errors *)

Inductive Method := GET | POST | PUT | PATCH | DELETE.

Module Config.
Record t := mk {
  url : string;
  method : Method;
  data : JsValue;
  headers : gmap string string;
  _retry : bool
}.

Definition set_retry (c : t) : t :=
  mk (url c) (method c) (data c) (headers c) true.

Definition set_Authorization (v : string) (c : t) : t :=
  mk (url c) (method c) (data c) (<["Authorization" := v]> (headers c)) (_retry c).
End Config.

Module Response.
Record t := mk { status : Z; data : JsValue }.
End Response.

Module AxiosError.
Record t := mk { config : Config.t; response : option Response.t }.
End AxiosError.

Inductive Thrown :=
| ThrownAxios (e : AxiosError.t)
| TypeError
| SyntaxError.

Inductive Outcome (A : Type) :=
| Fulfilled (a : A)
| Rejected (e : Thrown).
Arguments Fulfilled {A} a.
Arguments Rejected {A} e.

(** What leaves the browser: a request of the [api] instance (as it is
    after the request interceptor) or a bare [axios.post]. *)
Inductive Call :=
| ApiCall (c : Config.t)
| AxiosPost (url : string) (body : JsValue).

Inductive WireResponse :=
| NetworkError
| Http (status : Z) (body : JsValue).

(** Axios' default [validateStatus]. *)
Definition validateStatus (status : Z) : bool :=
  (200 <=? status) && (status <? 300).

(** ** The browser state

    [user] and [loading] are the state of the authentication provider.
    [None] is the [null] the provider starts with and [logout] sets; a
    [null] answered by the backend and passed to [setUser] is
    [Some JsNull], which is the same state for the program: statements
    about who is signed in go through [isAuthenticated]. *)

Record World := mkWorld {
  localStorage : gmap string string;
  location_href : string;
  wire_log : list Call;
  user : option JsValue;
  loading : bool
}.

Definition with_localStorage (f : gmap string string → gmap string string) (w : World) : World :=
  mkWorld (f (localStorage w)) (location_href w) (wire_log w) (user w) (loading w).

Definition with_location_href (h : string) (w : World) : World :=
  mkWorld (localStorage w) h (wire_log w) (user w) (loading w).

Definition with_call (c : Call) (w : World) : World :=
  mkWorld (localStorage w) (location_href w) (wire_log w ++ [c]) (user w) (loading w).

Definition with_user (u : option JsValue) (w : World) : World :=
  mkWorld (localStorage w) (location_href w) (wire_log w) u (loading w).

Definition with_loading (b : bool) (w : World) : World :=
  mkWorld (localStorage w) (location_href w) (wire_log w) (user w) b.

(** ** Promises: state, exceptions, and fuel for the recursion of [api] *)

Definition M (A : Type) : Type := World → option (Outcome A * World).

Definition ret {A} (a : A) : M A := λ w, Some (Fulfilled a, w).

Definition throw {A} (e : Thrown) : M A := λ w, Some (Rejected e, w).

Definition bind {A B} (m : M A) (k : A → M B) : M B := λ w,
  match m w with
  | Some (Fulfilled a, w') => k a w'
  | Some (Rejected e, w') => Some (Rejected e, w')
  | None => None
  end.

Definition try_catch {A} (m : M A) (handler : Thrown → M A) : M A := λ w,
  match m w with
  | Some (Rejected e, w') => handler e w'
  | r => r
  end.

Definition try_finally {A} (m : M A) (final : World → World) : M A := λ w,
  match m w with
  | Some (o, w') => Some (o, final w')
  | None => None
  end.

Definition modify (f : World → World) : M unit := λ w, Some (Fulfilled tt, f w).

Declare Scope promise_scope.
Delimit Scope promise_scope with promise.
Notation "'await' x := m 'in' k" := (bind m (λ x, k))
  (at level 10, x name, m at level 100, k at level 200) : promise_scope.
Notation "m ';;;' k" := (bind m (λ _, k))
  (at level 100, k at level 200, right associativity) : promise_scope.
Local Open Scope promise_scope.

Definition getItem (k : string) : M (option string) :=
  λ w, Some (Fulfilled (localStorage w !! k), w).

Definition setItem (k : string) (v : JsValue) : M unit :=
  modify (with_localStorage (insert k (ToString v))).

Definition removeItem (k : string) : M unit :=
  modify (with_localStorage (delete k)).

Definition logout_store (ls : gmap string string) : gmap string string :=
  delete "user" (delete "refresh_token" (delete "access_token" ls)).

(** ** What the service runs against *)

Class Environment := {
  (** [process.env.REACT_APP_API_URL || 'http://localhost:8000/api'] *)
  API_URL : string;
  (** the backend: the answer to a call, given the calls made before it *)
  network : list Call → Call → WireResponse;
  (** the string [localStorage] keeps for [JSON.stringify(v)] *)
  JSON_stringify : JsValue → string;
  (** [JSON.parse]; [None] is a [SyntaxError] *)
  JSON_parse : string → option JsValue
}.

Section Service.

Context {env : Environment}.

Definition send (c : Call) : M WireResponse :=
  λ w, Some (Fulfilled (network (wire_log w) c), with_call c w).

(** How Axios settles a request from what came back on the wire. *)
Definition settle (config : Config.t) (r : WireResponse) : Response.t + AxiosError.t :=
  match r with
  | NetworkError => inr (AxiosError.mk config None)
  | Http status body =>
      if validateStatus status then inl (Response.mk status body)
      else inr (AxiosError.mk config (Some (Response.mk status body)))
  end.

(** [axios.create] defaults of the [api] instance. *)
Definition api_headers : gmap string string :=
  {[ "Content-Type" := "application/json" ]}.

(** The bare [axios.post(url, body)]: no interceptor runs. *)
Definition axios_post (url : string) (body : JsValue) : M Response.t :=
  await r := send (AxiosPost url body) in
  match settle (Config.mk url POST body ∅ false) r with
  | inl response => ret response
  | inr error => throw (ThrownAxios error)
  end.

(** *** Request interceptor *)
Definition request_interceptor (config : Config.t) : M Config.t :=
  await token := getItem "access_token" in
  match token with
  | Some t =>
      if String.eqb t EmptyString then ret config
      else ret (Config.set_Authorization ("Bearer " +:+ t) config)
  | None => ret config
  end.

(** [error.response?.status === 401] *)
Definition status_is_401 (error : AxiosError.t) : bool :=
  match AxiosError.response error with
  | Some r => Response.status r =? 401
  | None => false
  end.

(** How control leaves the [try] block of the response interceptor:
    [return api(originalRequest)] hands the promise of the retry to the
    caller without awaiting it, so a rejection of the retry is not seen
    by the [catch]; otherwise control falls through to the final
    [Promise.reject(error)]. *)
Inductive TryExit :=
| ReturnRetry (originalRequest : Config.t)
| FallThrough.

(** *** Response interceptor, error branch.  [api] is the instance the
    retry goes through. *)
Definition response_error (api : Config.t → M Response.t)
    (error : AxiosError.t) : M Response.t :=
  let originalRequest := AxiosError.config error in
  if status_is_401 error && negb (Config._retry originalRequest) then
    let originalRequest := Config.set_retry originalRequest in
    let error := AxiosError.mk originalRequest (AxiosError.response error) in
    await exit :=
      try_catch
        (await refreshToken := getItem "refresh_token" in
         match refreshToken with
         | Some token =>
             if String.eqb token EmptyString then ret FallThrough
             else
               await response :=
                 axios_post (API_URL +:+ "/auth/refresh/")
                            (JsObject [("refresh", JsString token)]) in
               match destructure "access" (Response.data response) with
               | None => throw TypeError
               | Some access =>
                   setItem "access_token" access ;;;
                   ret (ReturnRetry
                          (Config.set_Authorization ("Bearer " +:+ ToString access)
                                                    originalRequest))
               end
         | None => ret FallThrough
         end)
        (λ refreshError,
           removeItem "access_token" ;;;
           removeItem "refresh_token" ;;;
           removeItem "user" ;;;
           modify (with_location_href "/login") ;;;
           throw refreshError) in
    match exit with
    | ReturnRetry originalRequest => api originalRequest
    | FallThrough => throw (ThrownAxios error)
    end
  else throw (ThrownAxios error).

(** *** The instance [api]: request interceptor, transport, response
    interceptor.  The retry re-enters [api]; [fuel] bounds the nesting. *)
Fixpoint api (fuel : nat) (config : Config.t) : M Response.t :=
  match fuel with
  | O => λ _, None
  | S fuel' =>
      await config := request_interceptor config in
      await r := send (ApiCall config) in
      match settle config r with
      | inl response => ret response
      | inr error => response_error (api fuel') error
      end
  end.

Definition api_get (fuel : nat) (url : string) : M Response.t :=
  api fuel (Config.mk url GET JsUndefined api_headers false).

Definition api_post (fuel : nat) (url : string) (body : JsValue) : M Response.t :=
  api fuel (Config.mk url POST body api_headers false).

(** *** Authentication functions *)
Definition login_body (username password : string) : JsValue :=
  JsObject [("username", JsString username); ("password", JsString password)].

Definition login (fuel : nat) (username password : string) : M JsValue :=
  await response := api_post fuel "/auth/login/" (login_body username password) in
  match destructure "access" (Response.data response),
        destructure "refresh" (Response.data response) with
  | Some access, Some refresh =>
      setItem "access_token" access ;;;
      setItem "refresh_token" refresh ;;;
      await userResponse := api_get fuel "/auth/user/" in
      setItem "user" (JsString (JSON_stringify (Response.data userResponse))) ;;;
      ret (Response.data userResponse)
  | _, _ => throw TypeError
  end.

Definition logout : M unit :=
  removeItem "access_token" ;;;
  removeItem "refresh_token" ;;;
  removeItem "user".

Definition getCurrentUser (fuel : nat) : M JsValue :=
  await response := api_get fuel "/auth/user/" in
  ret (Response.data response).

(** *** AuthContext: restoring the session when the application loads *)
Definition setUser (u : option JsValue) : M unit := modify (with_user u).

Definition context_logout : M unit := logout ;;; setUser None.

Definition JSON_parse_or_throw (s : string) : M JsValue :=
  match JSON_parse s with
  | Some v => ret v
  | None => throw SyntaxError
  end.

(** The inner [try] of [checkAuth]: the stored token is verified by
    fetching the current user. *)
Definition checkAuth_verify (fuel : nat) : M unit :=
  try_catch
    (await currentUser := getCurrentUser fuel in
     setUser (Some currentUser) ;;;
     setItem "user" (JsString (JSON_stringify currentUser)))
    (λ error, context_logout).

(** The body of [checkAuth] up to its first [await]; [verify] is what
    runs from there. *)
Definition checkAuth_restore (verify : M unit) : M unit :=
  await token := getItem "access_token" in
  await storedUser := getItem "user" in
  match storedUser with
  | Some stored =>
      if truthy token && truthy storedUser then
        await parsed := JSON_parse_or_throw stored in
        setUser (Some parsed) ;;;
        verify
      else ret tt
  | None => ret tt
  end.

Definition checkAuth (fuel : nat) : M unit :=
  try_finally
    (try_catch (checkAuth_restore (checkAuth_verify fuel))
               (λ error, ret tt))
    (with_loading false).

(** *** Vocabulary of the statements below *)

(** The configuration the request interceptor lets through, as a function
    of the store (proved equal to [request_interceptor] below). *)
Definition authorize (ls : gmap string string) (config : Config.t) : Config.t :=
  if truthy (ls !! "access_token")
  then Config.set_Authorization ("Bearer " +:+ default EmptyString (ls !! "access_token")) config
  else config.

Definition refresh_call (token : string) : Call :=
  AxiosPost (API_URL +:+ "/auth/refresh/") (JsObject [("refresh", JsString token)]).

(** The refresh call is the only bare [axios.post] of the service. *)
Definition is_refresh (c : Call) : bool :=
  match c with
  | AxiosPost _ _ => true
  | ApiCall _ => false
  end.

(** The outcome of a request of [api] that is not recovered. *)
Definition settled (config : Config.t) (r : WireResponse) : Outcome Response.t :=
  match settle config r with
  | inl response => Fulfilled response
  | inr error => Rejected (ThrownAxios error)
  end.

Definition refresh_count (calls : list Call) : nat :=
  length (List.filter is_refresh calls).

(** What the error branch of the response interceptor can do to the
    browser: nothing, a teardown after one refresh call, or one refresh
    call, a new access token and one retry. *)
Inductive recovery (w : World) : World → Prop :=
| recovery_none : recovery w w
| recovery_teardown token :
    localStorage w !! "refresh_token" = Some token →
    recovery w (with_location_href "/login"
                  (with_localStorage logout_store (with_call (refresh_call token) w)))
| recovery_retry token access retried :
    localStorage w !! "refresh_token" = Some token →
    recovery w (with_call (ApiCall retried)
                  (with_localStorage (insert "access_token" access)
                     (with_call (refresh_call token) w))).

Definition login_request (username password : string) : Config.t :=
  Config.mk "/auth/login/" POST (login_body username password) api_headers false.

Definition user_request : Config.t :=
  Config.mk "/auth/user/" GET JsUndefined api_headers false.

(** Both tokens present, or both absent. *)
Definition paired (ls : gmap string string) : Prop :=
  is_Some (ls !! "access_token") ↔ is_Some (ls !! "refresh_token").

(** A value whose conversion to a string cannot throw: anything but an
    object.  ([String(v)] throws a [TypeError] on an object that has a
    [toString] property of its own, as a JSON body may; [ToString] above
    has no such case, so the statements that pass a value of the backend
    to [setItem] or to a template literal ask for a primitive one.) *)
Definition primitive (v : JsValue) : Prop :=
  match v with
  | JsObject _ => False
  | _ => True
  end.

(** A backend none of whose successful answers carries an object where
    a token is read. *)
Definition issues_primitive_tokens : Prop :=
  ∀ history call st body v,
    network history call = Http st body → validateStatus st = true →
    destructure "access" body = Some v ∨ destructure "refresh" body = Some v →
    primitive v.

(** A failure of the transport, or a status outside 2xx other than 401. *)
Definition non_auth_failure (r : WireResponse) : Prop :=
  match r with
  | NetworkError => True
  | Http st _ => validateStatus st = false ∧ st ≠ 401
  end.

End Service.

(** ** The callers of [api] *)

(** *** Resource functions of the API service *)

Module Resource.
Section Functions.

Context {env : Environment}.

Definition api_put (fuel : nat) (url : string) (body : JsValue) : M Response.t :=
  api fuel (Config.mk url PUT body api_headers false).

Definition api_patch (fuel : nat) (url : string) (body : JsValue) : M Response.t :=
  api fuel (Config.mk url PATCH body api_headers false).

Definition api_delete (fuel : nat) (url : string) : M Response.t :=
  api fuel (Config.mk url DELETE JsUndefined api_headers false).

(** [resource] and [id] are the texts the template literals interpolate. *)
Definition register (fuel : nat) (userData : JsValue) : M JsValue :=
  await response := api_post fuel "/auth/register/" userData in
  ret (Response.data response).

Definition getById (fuel : nat) (resource id : string) : M JsValue :=
  await response := api_get fuel ("/" +:+ resource +:+ "/" +:+ id +:+ "/") in
  ret (Response.data response).

Definition create (fuel : nat) (resource : string) (data : JsValue) : M JsValue :=
  await response := api_post fuel ("/" +:+ resource +:+ "/") data in
  ret (Response.data response).

Definition update (fuel : nat) (resource id : string) (data : JsValue) : M JsValue :=
  await response := api_put fuel ("/" +:+ resource +:+ "/" +:+ id +:+ "/") data in
  ret (Response.data response).

Definition partialUpdate (fuel : nat) (resource id : string) (data : JsValue) : M JsValue :=
  await response := api_patch fuel ("/" +:+ resource +:+ "/" +:+ id +:+ "/") data in
  ret (Response.data response).

Definition remove (fuel : nat) (resource id : string) : M JsValue :=
  await response := api_delete fuel ("/" +:+ resource +:+ "/" +:+ id +:+ "/") in
  ret (Response.data response).

Definition getDashboardStats (fuel : nat) : M JsValue :=
  await response := api_get fuel "/dashboard/stats/" in
  ret (Response.data response).

Definition respondToNotification (fuel : nat) (id : string) (response : JsValue) : M JsValue :=
  await result := api_post fuel ("/notifications/" +:+ id +:+ "/respond/")
                           (JsObject [("response", response)]) in
  ret (Response.data result).

(** The functions above and [getCurrentUser], as one family. *)
Inductive Op :=
| Register (userData : JsValue)
| GetCurrentUser
| GetById (resource id : string)
| Create (resource : string) (data : JsValue)
| Update (resource id : string) (data : JsValue)
| PartialUpdate (resource id : string) (data : JsValue)
| Remove (resource id : string)
| GetDashboardStats
| RespondToNotification (id : string) (response : JsValue).

Definition run (fuel : nat) (op : Op) : M JsValue :=
  match op with
  | Register userData => register fuel userData
  | GetCurrentUser => getCurrentUser fuel
  | GetById resource id => getById fuel resource id
  | Create resource data => create fuel resource data
  | Update resource id data => update fuel resource id data
  | PartialUpdate resource id data => partialUpdate fuel resource id data
  | Remove resource id => remove fuel resource id
  | GetDashboardStats => getDashboardStats fuel
  | RespondToNotification id response => respondToNotification fuel id response
  end.

(** The request each of them hands to [api]. *)
Definition request_of (op : Op) : Config.t :=
  match op with
  | Register userData => Config.mk "/auth/register/" POST userData api_headers false
  | GetCurrentUser => user_request
  | GetById resource id =>
      Config.mk ("/" +:+ resource +:+ "/" +:+ id +:+ "/") GET JsUndefined api_headers false
  | Create resource data =>
      Config.mk ("/" +:+ resource +:+ "/") POST data api_headers false
  | Update resource id data =>
      Config.mk ("/" +:+ resource +:+ "/" +:+ id +:+ "/") PUT data api_headers false
  | PartialUpdate resource id data =>
      Config.mk ("/" +:+ resource +:+ "/" +:+ id +:+ "/") PATCH data api_headers false
  | Remove resource id =>
      Config.mk ("/" +:+ resource +:+ "/" +:+ id +:+ "/") DELETE JsUndefined api_headers false
  | GetDashboardStats =>
      Config.mk "/dashboard/stats/" GET JsUndefined api_headers false
  | RespondToNotification id response =>
      Config.mk ("/notifications/" +:+ id +:+ "/respond/") POST
                (JsObject [("response", response)]) api_headers false
  end.

End Functions.
End Resource.

(** *** The rest of the authentication context *)

Section AuthProvider.

Context {env : Environment}.

(** [login] of the provider: the user is set once [apiLogin] has
    fulfilled; an error is logged and thrown again. *)
Definition context_login (fuel : nat) (username password : string) : M JsValue :=
  try_catch
    (await userData := login fuel username password in
     setUser (Some userData) ;;;
     ret userData)
    (λ error, throw error).


(** Truthiness of a value. *)
Definition js_truthy (v : JsValue) : bool :=
  match v with
  | JsUndefined | JsNull => false
  | JsString s => negb (String.eqb s EmptyString)
  | JsObject _ => true
  end.

(** [!!user] *)
Definition isAuthenticated (w : World) : bool :=
  match user w with
  | Some u => js_truthy u
  | None => false
  end.

(** The error branch of the response interceptor with what it hands to
    the caller: the error passed on, a teardown with the error of the
    refresh, or the settled retry. *)
Inductive recovered (w : World) (error : AxiosError.t) : Outcome Response.t → World → Prop :=
| recovered_pass e :
    AxiosError.response e = AxiosError.response error →
    recovered w error (Rejected (ThrownAxios e)) w
| recovered_teardown token e :
    localStorage w !! "refresh_token" = Some token → token ≠ EmptyString →
    recovered w error (Rejected e)
      (with_location_href "/login"
         (with_localStorage logout_store (with_call (refresh_call token) w)))
| recovered_retry token access :
    localStorage w !! "refresh_token" = Some token → token ≠ EmptyString →
    let retried := Config.set_Authorization ("Bearer " +:+ access)
                     (Config.set_retry (AxiosError.config error)) in
    recovered w error
      (settled retried
         (network (wire_log w ++ [refresh_call token]) (ApiCall retried)))
      (with_call (ApiCall retried)
         (with_localStorage (insert "access_token" access)
            (with_call (refresh_call token) w))).

End AuthProvider.

(** ** Helper utilities

    [utils/helpers.js].  A string is its sequence of UTF-16 code units;
    the two patterns have no flag, so they match code unit by code unit.
    [formatCurrency], [formatDate], [daysUntil], [calculateOccupancyRate]
    (floating point, [Intl], the clock), [fileToBase64] and [debounce]
    (events and timers) are outside this model. *)

Module Helpers.

Definition of_ascii (s : string) : list N :=
  map Ascii.N_of_ascii (String.list_ascii_of_string s).

(** *** Patterns *)

Inductive regex :=
| Never
| Eps
| Class (p : N → bool)
| Seq (r1 r2 : regex)
| Alt (r1 r2 : regex)
| Star (r : regex).

(** [r+] *)
Definition Plus (r : regex) : regex := Seq r (Star r).

Fixpoint nullable (r : regex) : bool :=
  match r with
  | Never => false
  | Eps => true
  | Class _ => false
  | Seq r1 r2 => nullable r1 && nullable r2
  | Alt r1 r2 => nullable r1 || nullable r2
  | Star _ => true
  end.

Fixpoint deriv (c : N) (r : regex) : regex :=
  match r with
  | Never => Never
  | Eps => Never
  | Class p => if p c then Eps else Never
  | Seq r1 r2 =>
      if nullable r1 then Alt (Seq (deriv c r1) r2) (deriv c r2)
      else Seq (deriv c r1) r2
  | Alt r1 r2 => Alt (deriv c r1) (deriv c r2)
  | Star r1 => Seq (deriv c r1) (Star r1)
  end.

(** [/^r$/.test(s)] *)
Fixpoint test (r : regex) (s : list N) : bool :=
  match s with
  | [] => nullable r
  | c :: s' => test (deriv c r) s'
  end.

(** What a pattern matches, as a relation. *)
Inductive matches : regex → list N → Prop :=
| matches_eps : matches Eps []
| matches_class p c : p c = true → matches (Class p) [c]
| matches_seq r1 r2 s1 s2 :
    matches r1 s1 → matches r2 s2 → matches (Seq r1 r2) (s1 ++ s2)
| matches_alt_l r1 r2 s : matches r1 s → matches (Alt r1 r2) s
| matches_alt_r r1 r2 s : matches r2 s → matches (Alt r1 r2) s
| matches_star_nil r : matches (Star r) []
| matches_star_more r s1 s2 :
    matches r s1 → matches (Star r) s2 → matches (Star r) (s1 ++ s2).

(** [\d] *)
Definition is_digit (c : N) : bool := ((48 <=? c) && (c <=? 57))%N.

(** [\s]: white space and line terminators. *)
Definition is_space (c : N) : bool :=
  ((9 <=? c) && (c <=? 13) || (c =? 32) || (c =? 160) || (c =? 5760) ||
   (8192 <=? c) && (c <=? 8202) || (c =? 8232) || (c =? 8233) ||
   (c =? 8239) || (c =? 8287) || (c =? 12288) || (c =? 65279))%N.

(** [[^\s@]] *)
Definition not_space_or_at (c : N) : bool := (negb (is_space c) && negb (c =? 64))%N.

(** [/^[^\s@]+@[^\s@]+\.[^\s@]+$/] *)
Definition emailRegex : regex :=
  Seq (Plus (Class not_space_or_at))
    (Seq (Class (N.eqb 64))
       (Seq (Plus (Class not_space_or_at))
          (Seq (Class (N.eqb 46))
             (Plus (Class not_space_or_at))))).

Definition isValidEmail (email : list N) : bool := test emailRegex email.

(** [[\d\s+()-]] *)
Definition phone_char (c : N) : bool :=
  (is_digit c || is_space c || (c =? 43) || (c =? 40) || (c =? 41) || (c =? 45))%N.

Definition phoneRegex : regex := Plus (Class phone_char).

Definition isValidPhone (phone : list N) : bool :=
  (10 <=? length phone)%nat && test phoneRegex phone.

(** *** [truncateText]
    [text] is a string, or [None] for [null] and [undefined];
    [maxLength] is an integer, or [None] when the argument is left out. *)
Definition truncateText (text : option (list N)) (maxLength : option Z) : option (list N) :=
  let maxLength := default 100 maxLength in
  match text with
  | None => None
  | Some t =>
      if (length t =? 0)%nat || (Z.of_nat (length t) <=? maxLength)
      then Some t
      else Some (take (Z.to_nat maxLength) t ++ of_ascii "...")%list
  end.

(** *** [getInitials] *)

(** [s.split(sep)] for a separator of one code unit. *)
Fixpoint split (sep : N) (s : list N) : list (list N) :=
  match s with
  | [] => [[]]
  | c :: s' =>
      if (c =? sep)%N then [] :: split sep s'
      else match split sep s' with
           | segment :: rest => (c :: segment) :: rest
           | [] => [[c]]
           end
  end.

(** [s.charAt(0)] *)
Definition charAt0 (s : list N) : list N := take 1 s.

Section Initials.

Variable toUpperCase : list N → list N.

Definition getInitials (name : option (list N)) : list N :=
  match name with
  | None => []
  | Some n =>
      if (length n =? 0)%nat then []
      else
        let names := split 32 n in
        if (length names =? 1)%nat then toUpperCase (charAt0 (nth 0 names []))
        else (toUpperCase (charAt0 (nth 0 names [])) ++
              toUpperCase (charAt0 (nth (length names - 1) names [])))%list
  end.

End Initials.

(** *** [groupBy] *)

(** The properties every object inherits from [Object.prototype]. *)
Definition Object_prototype : list string :=
  ["constructor"; "__defineGetter__"; "__defineSetter__"; "hasOwnProperty";
   "__lookupGetter__"; "__lookupSetter__"; "isPrototypeOf";
   "propertyIsEnumerable"; "toString"; "valueOf"; "__proto__"; "toLocaleString"].

Definition inherited (k : string) : bool := bool_decide (k ∈ Object_prototype).

(** [item[key]] as the property key it is used as. *)
Definition group_key (key : string) (item : list (string * JsValue)) : string :=
  ToString (get_prop key item).

(** One round of the reducer; [None] is the [TypeError] of calling
    [push] on an inherited property, which is not an array. *)
Definition groupBy_step (key : string)
    (result : option (gmap string (list (list (string * JsValue)))))
    (item : list (string * JsValue))
    : option (gmap string (list (list (string * JsValue)))) :=
  match result with
  | None => None
  | Some groups =>
      let groupKey := group_key key item in
      match groups !! groupKey with
      | Some group => Some (<[groupKey := (group ++ [item])%list]> groups)
      | None =>
          if inherited groupKey then None
          else Some (<[groupKey := [item]]> groups)
      end
  end.

Definition groupBy (array : list (list (string * JsValue))) (key : string)
    : option (gmap string (list (list (string * JsValue)))) :=
  fold_left (groupBy_step key) array (Some ∅).

End Helpers.

(** ** Scenarios: concrete backends and browser states *)

Module Scenario.

Definition dquote : string := String (Ascii.ascii_of_nat 34) EmptyString.

Definition quoted (x : string) : string := dquote +:+ x +:+ dquote.

Definition tenant : JsValue := JsObject [("role", JsString "tenant")].

Definition tenant_json : string :=
  "{" +:+ quoted "role" +:+ ":" +:+ quoted "tenant" +:+ "}".

(** JSON on the values of the scenarios: [stringify] covers [null],
    strings and one-field objects that need no escaping; [parse] knows
    the texts used here and takes any other text as malformed. *)
Definition stringify (v : JsValue) : string :=
  match v with
  | JsNull => "null"
  | JsString x => quoted x
  | JsObject [(k, JsString x)] => "{" +:+ quoted k +:+ ":" +:+ quoted x +:+ "}"
  | _ => "undefined"
  end.

Definition parse (text : string) : option JsValue :=
  if String.eqb text tenant_json then Some tenant
  else if String.eqb text "null" then Some JsNull
  else None.

Definition issued : JsValue :=
  JsObject [("access", JsString "A2"); ("refresh", JsString "R2")].

(** The access token is refused everywhere; the refresh endpoint issues
    ["A2"]. *)
Definition refresh_granted : Environment := {|
  API_URL := "http://localhost:8000/api";
  network := λ _ c,
    match c with
    | AxiosPost _ _ => Http 200 (JsObject [("access", JsString "A2")])
    | ApiCall _ => Http 401 JsNull
    end;
  JSON_stringify := stringify;
  JSON_parse := parse
|}.

(** The access token is refused, and so is the refresh token. *)
Definition refresh_rejected : Environment := {|
  API_URL := "http://localhost:8000/api";
  network := λ _ _, Http 401 JsNull;
  JSON_stringify := stringify;
  JSON_parse := parse
|}.

(** The login endpoint issues ["A2"] and ["R2"]; the profile endpoint is
    down. *)
Definition profile_unavailable : Environment := {|
  API_URL := "http://localhost:8000/api";
  network := λ _ c,
    match c with
    | ApiCall config =>
        if String.eqb (Config.url config) "/auth/login/" then Http 200 issued
        else Http 500 JsNull
    | AxiosPost _ _ => Http 500 JsNull
    end;
  JSON_stringify := stringify;
  JSON_parse := parse
|}.

(** Login and profile endpoints both answer. *)
Definition healthy : Environment := {|
  API_URL := "http://localhost:8000/api";
  network := λ _ c,
    match c with
    | ApiCall config =>
        if String.eqb (Config.url config) "/auth/login/" then Http 200 issued
        else if String.eqb (Config.url config) "/auth/user/" then Http 200 tenant
        else Http 404 JsNull
    | AxiosPost _ _ => Http 200 (JsObject [("access", JsString "A2")])
    end;
  JSON_stringify := stringify;
  JSON_parse := parse
|}.

Definition signed_in : World :=
  mkWorld (<["access_token" := "A1"]> (<["refresh_token" := "R1"]> ∅))
          "/dashboard" [] None false.

Definition signed_out : World := mkWorld ∅ "/login" [] None false.

(** An access token is left behind without its refresh token. *)
Definition half_session : World :=
  mkWorld (<["access_token" := "A1"]> ∅) "/dashboard" [] None false.

Definition properties_request (retried : bool) : Config.t :=
  Config.mk "/properties/" GET JsUndefined
            (<["Authorization" := "Bearer A1"]> api_headers) retried.

Definition expired : AxiosError.t :=
  AxiosError.mk (properties_request false) (Some (Response.mk 401 JsNull)).

Definition expired_again : AxiosError.t :=
  AxiosError.mk (properties_request true) (Some (Response.mk 401 JsNull)).

Definition server_error : AxiosError.t :=
  AxiosError.mk (properties_request false) (Some (Response.mk 500 JsNull)).

(** The access token has expired: a request is refused unless it is a
    retry; the refresh endpoint issues ["A2"]. *)
Definition token_expired : Environment := {|
  API_URL := "http://localhost:8000/api";
  network := λ _ c,
    match c with
    | AxiosPost _ _ => Http 200 (JsObject [("access", JsString "A2")])
    | ApiCall config =>
        if Config._retry config then Http 200 (JsString "fresh") else Http 401 JsNull
    end;
  JSON_stringify := stringify;
  JSON_parse := parse
|}.

(** A browser that comes back with a session and a cached user. *)
Definition returning : World :=
  mkWorld (<["access_token" := "A1"]>
             (<["refresh_token" := "R1"]> (<["user" := tenant_json]> ∅)))
          "/dashboard" [] None true.

(** The same, with a cache that is no JSON text. *)
Definition returning_garbled : World :=
  mkWorld (<["access_token" := "A1"]>
             (<["refresh_token" := "R1"]> (<["user" := "{oops"]> ∅)))
          "/dashboard" [] None true.

(** [toUpperCase] on the letters [a] to [z]. *)
Definition upper (s : list N) : list N :=
  map (λ c, if ((97 <=? c) && (c <=? 122))%N then (c - 32)%N else c) s.

Definition units : list (list (string * JsValue)) :=
  [ [("id", JsString "1"); ("status", JsString "vacant")];
    [("id", JsString "2"); ("status", JsString "occupied")];
    [("id", JsString "3"); ("status", JsString "vacant")] ].

End Scenario.

(** ** Properties *)

Section Properties.

Context {env : Environment}.

Ltac run :=
  unfold bind, try_catch, try_finally, ret, throw, getItem, setItem,
    removeItem, modify, send, axios_post; simpl.

Lemma request_interceptor_authorize config w :
  request_interceptor config w = Some (Fulfilled (authorize (localStorage w) config), w).
Proof.
  unfold request_interceptor, authorize, truthy. run.
  destruct (localStorage w !! "access_token") as [t|]; simpl; [|done].
  by destruct (String.eqb t EmptyString).
Qed.

Lemma response_error_pass api_k error w :
  status_is_401 error && negb (Config._retry (AxiosError.config error)) = false →
  response_error api_k error w = Some (Rejected (ThrownAxios error), w).
Proof. intros H. unfold response_error. by rewrite H. Qed.

Lemma api_unfold fuel config w :
  api (S fuel) config w =
    let config' := authorize (localStorage w) config in
    let w' := with_call (ApiCall config') w in
    match settle config' (network (wire_log w) (ApiCall config')) with
    | inl response => Some (Fulfilled response, w')
    | inr error => response_error (api fuel) error w'
    end.
Proof.
  simpl. unfold bind at 1. rewrite request_interceptor_authorize.
  run. by destruct (settle _ _).
Qed.

Lemma settle_config config r error :
  settle config r = inr error → AxiosError.config error = config.
Proof.
  unfold settle. destruct r as [|st body]; [|destruct (validateStatus st)];
    intros [= <-]; done.
Qed.

Lemma authorize_retry ls config :
  Config._retry (authorize ls config) = Config._retry config.
Proof. unfold authorize. by destruct (truthy _). Qed.

(** A request that is already marked goes out once and is never recovered. *)
Lemma api_retried fuel config w :
  Config._retry config = true →
  api (S fuel) config w =
    let config' := authorize (localStorage w) config in
    Some (settled config' (network (wire_log w) (ApiCall config')),
          with_call (ApiCall config') w).
Proof.
  intros Hr. rewrite api_unfold. cbv zeta. unfold settled.
  destruct (settle _ _) as [response|error] eqn:Hs; [done|].
  apply response_error_pass.
  rewrite (settle_config _ _ _ Hs), authorize_retry, Hr.
  by rewrite andb_false_r.
Qed.

Lemma eqb_empty_false (t : string) : t ≠ EmptyString → String.eqb t EmptyString = false.
Proof. intros H. by apply String.eqb_neq. Qed.

Lemma recover_condition error :
  status_is_401 error = true →
  Config._retry (AxiosError.config error) = false →
  status_is_401 error && negb (Config._retry (AxiosError.config error)) = true.
Proof. by intros -> ->. Qed.

(** The four ways through the recovery branch. *)
Lemma response_error_no_token api_k error w :
  status_is_401 error = true →
  Config._retry (AxiosError.config error) = false →
  truthy (localStorage w !! "refresh_token") = false →
  response_error api_k error w =
    Some (Rejected (ThrownAxios
            (AxiosError.mk (Config.set_retry (AxiosError.config error))
                           (AxiosError.response error))), w).
Proof.
  intros H401 Hr Ht. unfold response_error.
  rewrite (recover_condition _ H401 Hr). run.
  destruct (localStorage w !! "refresh_token") as [t|]; [|done].
  simpl in Ht. apply negb_false_iff in Ht. by rewrite Ht.
Qed.

Lemma response_error_refresh_failed api_k error w token refreshError :
  status_is_401 error = true →
  Config._retry (AxiosError.config error) = false →
  localStorage w !! "refresh_token" = Some token → token ≠ EmptyString →
  settle (Config.mk (API_URL +:+ "/auth/refresh/") POST
                    (JsObject [("refresh", JsString token)]) ∅ false)
         (network (wire_log w) (refresh_call token)) = inr refreshError →
  response_error api_k error w =
    Some (Rejected (ThrownAxios refreshError),
          with_location_href "/login"
            (with_localStorage logout_store (with_call (refresh_call token) w))).
Proof.
  intros H401 Hr Ht Hne Hs. unfold response_error.
  rewrite (recover_condition _ H401 Hr). run.
  rewrite Ht, (eqb_empty_false _ Hne). unfold refresh_call in Hs.
  run. by rewrite Hs.
Qed.

Lemma response_error_refresh_malformed api_k error w token st body :
  status_is_401 error = true →
  Config._retry (AxiosError.config error) = false →
  localStorage w !! "refresh_token" = Some token → token ≠ EmptyString →
  network (wire_log w) (refresh_call token) = Http st body →
  validateStatus st = true →
  destructure "access" body = None →
  response_error api_k error w =
    Some (Rejected TypeError,
          with_location_href "/login"
            (with_localStorage logout_store (with_call (refresh_call token) w))).
Proof.
  intros H401 Hr Ht Hne Hn Hv Hd. unfold response_error.
  rewrite (recover_condition _ H401 Hr). run.
  rewrite Ht, (eqb_empty_false _ Hne). unfold refresh_call in Hn.
  run. rewrite Hn. unfold settle. rewrite Hv. simpl. by rewrite Hd.
Qed.

Lemma response_error_refreshed api_k error w token st body access :
  status_is_401 error = true →
  Config._retry (AxiosError.config error) = false →
  localStorage w !! "refresh_token" = Some token → token ≠ EmptyString →
  network (wire_log w) (refresh_call token) = Http st body →
  validateStatus st = true →
  destructure "access" body = Some access →
  response_error api_k error w =
    api_k (Config.set_Authorization ("Bearer " +:+ ToString access)
             (Config.set_retry (AxiosError.config error)))
          (with_localStorage (insert "access_token" (ToString access))
             (with_call (refresh_call token) w)).
Proof.
  intros H401 Hr Ht Hne Hn Hv Hd. unfold response_error.
  rewrite (recover_condition _ H401 Hr). run.
  rewrite Ht, (eqb_empty_false _ Hne). unfold refresh_call in Hn.
  run. rewrite Hn. unfold settle. rewrite Hv. simpl. by rewrite Hd.
Qed.

(** The retry already carries the token the store now holds: the request
    interceptor leaves it as it is. *)
Lemma authorize_fresh ls t config :
  authorize (<["access_token" := t]> ls)
            (Config.set_Authorization ("Bearer " +:+ t) config)
  = Config.set_Authorization ("Bearer " +:+ t) config.
Proof.
  unfold authorize. rewrite lookup_insert_eq. simpl.
  destruct (String.eqb t EmptyString); simpl; [done|].
  unfold Config.set_Authorization. simpl. by rewrite insert_insert_eq.
Qed.

Lemma status_is_401_true error r :
  AxiosError.response error = Some r → Response.status r = 401 →
  status_is_401 error = true.
Proof. unfold status_is_401. intros -> ->. done. Qed.

(** Every path through the error branch, with any request, is one of the
    three recoveries; one level of fuel is enough for the retry. *)
Lemma response_error_recovery fuel error w :
  ∃ out w',
    response_error (api (S fuel)) error w = Some (out, w') ∧ recovery w w'.
Proof.
  destruct (status_is_401 error && negb (Config._retry (AxiosError.config error)))
    eqn:Hc.
  2:{ eexists _, _. split; [by apply response_error_pass | constructor]. }
  apply andb_true_iff in Hc as [H401 Hr]. apply negb_true_iff in Hr.
  destruct (truthy (localStorage w !! "refresh_token")) eqn:Ht.
  2:{ eexists _, _. split; [by apply response_error_no_token | constructor]. }
  destruct (localStorage w !! "refresh_token") as [token|] eqn:Hl; [|done].
  simpl in Ht. apply negb_true_iff, String.eqb_neq in Ht.
  destruct (settle (Config.mk (API_URL +:+ "/auth/refresh/") POST
                      (JsObject [("refresh", JsString token)]) ∅ false)
                   (network (wire_log w) (refresh_call token)))
    as [response|refreshError] eqn:Hs.
  2:{ eexists _, _. split; [by eapply response_error_refresh_failed|].
      by constructor. }
  unfold settle in Hs.
  destruct (network (wire_log w) (refresh_call token)) as [|st body] eqn:Hn; [done|].
  destruct (validateStatus st) eqn:Hv; [|done].
  destruct (destructure "access" body) as [access|] eqn:Hd.
  - erewrite response_error_refreshed by done.
    rewrite api_retried by done. cbv zeta.
    eexists _, _. split; [done|]. by econstructor.
  - eexists _, _. split; [by eapply response_error_refresh_malformed|].
    by constructor.
Qed.

Lemma api_recovery fuel config w :
  ∃ out w',
    api (S (S fuel)) config w = Some (out, w') ∧
    recovery (with_call (ApiCall (authorize (localStorage w) config)) w) w'.
Proof.
  rewrite api_unfold. cbv zeta. destruct (settle _ _) as [response|error].
  - eexists _, _. split; [done | constructor].
  - apply response_error_recovery.
Qed.

Lemma recovery_log w w' :
  recovery w w' →
  ∃ calls, wire_log w' = (wire_log w ++ calls)%list ∧
           (refresh_count calls ≤ 1)%nat ∧ (length calls ≤ 2)%nat.
Proof.
  destruct 1; simpl.
  - exists []. rewrite app_nil_r. simpl. auto with lia.
  - exists [refresh_call token]. simpl. auto with lia.
  - exists [refresh_call token; ApiCall retried]. rewrite <- app_assoc. simpl.
    auto with lia.
Qed.

Lemma recovery_paired w w' :
  recovery w w' → paired (localStorage w) → paired (localStorage w').
Proof.
  unfold paired. destruct 1 as [|token Ht|token access retried Ht]; simpl; [done|..].
  - intros _. unfold logout_store.
    rewrite lookup_delete_ne, lookup_delete_ne, lookup_delete_eq by done.
    rewrite lookup_delete_ne, lookup_delete_eq by done.
    split; intros [? [=]].
  - intros _. rewrite lookup_insert_eq, lookup_insert_ne, Ht by done.
    split; eauto.
Qed.

(** The continuation of the error branch is only ever called on a marked
    request. *)
Lemma response_error_ext k1 k2 error w :
  (∀ c w0, Config._retry c = true → k1 c w0 = k2 c w0) →
  response_error k1 error w = response_error k2 error w.
Proof.
  intros Hk.
  destruct (status_is_401 error && negb (Config._retry (AxiosError.config error)))
    eqn:Hc; [|by rewrite !response_error_pass].
  apply andb_true_iff in Hc as [H401 Hr]. apply negb_true_iff in Hr.
  destruct (truthy (localStorage w !! "refresh_token")) eqn:Ht;
    [|by rewrite !response_error_no_token].
  destruct (localStorage w !! "refresh_token") as [token|] eqn:Hl; [|done].
  simpl in Ht. apply negb_true_iff, String.eqb_neq in Ht.
  destruct (settle (Config.mk (API_URL +:+ "/auth/refresh/") POST
                      (JsObject [("refresh", JsString token)]) ∅ false)
                   (network (wire_log w) (refresh_call token)))
    as [response|refreshError] eqn:Hs;
    [|by erewrite !response_error_refresh_failed].
  unfold settle in Hs.
  destruct (network (wire_log w) (refresh_call token)) as [|st body] eqn:Hn; [done|].
  destruct (validateStatus st) eqn:Hv; [|done].
  destruct (destructure "access" body) as [access|] eqn:Hd.
  - erewrite !response_error_refreshed by done. by apply Hk.
  - by erewrite !response_error_refresh_malformed.
Qed.

(** Fuel beyond two changes nothing: the recursion of [api] is at most
    one level deep. *)
Lemma api_fuel_stable fuel config w :
  api (S (S fuel)) config w = api 2 config w.
Proof.
  rewrite !api_unfold. cbv zeta. destruct (settle _ _) as [response|error]; [done|].
  apply response_error_ext. intros c w0 Hc. by rewrite !api_retried.
Qed.

(** *** Plain outcomes of one request *)

Lemma api_fulfilled fuel config w st body :
  network (wire_log w) (ApiCall (authorize (localStorage w) config)) = Http st body →
  validateStatus st = true →
  api (S fuel) config w =
    Some (Fulfilled (Response.mk st body),
          with_call (ApiCall (authorize (localStorage w) config)) w).
Proof.
  intros Hn Hv. rewrite api_unfold. cbv zeta. unfold settle. by rewrite Hn, Hv.
Qed.

Lemma api_non_auth_failure fuel config w :
  non_auth_failure (network (wire_log w) (ApiCall (authorize (localStorage w) config))) →
  ∃ error,
    api (S fuel) config w =
      Some (Rejected (ThrownAxios error),
            with_call (ApiCall (authorize (localStorage w) config)) w).
Proof.
  intros Hf. rewrite api_unfold. cbv zeta. unfold settle.
  destruct (network _ _) as [|st body]; simpl in Hf.
  - eexists. by apply response_error_pass.
  - destruct Hf as [-> Hne]. eexists. apply response_error_pass.
    unfold status_is_401. simpl. apply Z.eqb_neq in Hne. by rewrite Hne.
Qed.

(** *** [login], step by step *)

(** Once the login call is answered with the two tokens, both are in the
    store before the profile is asked for. *)
Lemma login_tokens_stored fuel username password w st body access refresh :
  network (wire_log w)
          (ApiCall (authorize (localStorage w) (login_request username password)))
    = Http st body →
  validateStatus st = true →
  destructure "access" body = Some access →
  destructure "refresh" body = Some refresh →
  login (S fuel) username password w =
    (await userResponse := api_get (S fuel) "/auth/user/" in
     setItem "user" (JsString (JSON_stringify (Response.data userResponse))) ;;;
     ret (Response.data userResponse))
      (with_localStorage (insert "refresh_token" (ToString refresh))
         (with_localStorage (insert "access_token" (ToString access))
            (with_call (ApiCall (authorize (localStorage w)
                                   (login_request username password))) w))).
Proof.
  intros Hn Hv Ha Hr. unfold login. unfold bind at 1. unfold api_post.
  fold (login_request username password).
  rewrite (api_fulfilled _ _ _ _ _ Hn Hv). cbn [Response.data].
  rewrite Ha, Hr. reflexivity.
Qed.

Lemma login_recovery n username password w :
  (∀ c w0, ∃ out w', api n c w0 = Some (out, w') ∧
     recovery (with_call (ApiCall (authorize (localStorage w0) c)) w0) w') →
  ∃ out w',
    login n username password w = Some (out, w') ∧
    (paired (localStorage w) → paired (localStorage w')).
Proof.
  intros Hapi. unfold login, api_post, api_get.
  unfold bind at 1.
  destruct (Hapi (Config.mk "/auth/login/" POST (login_body username password)
                    api_headers false) w) as (out1 & w1 & -> & R1).
  assert (paired (localStorage w) → paired (localStorage w1)) as P1.
  { intros Hp. by apply (recovery_paired _ _ R1). }
  destruct out1 as [response|e]; [|by eexists _, _].
  destruct (destructure "access" _) as [access|]; [|by eexists _, _].
  destruct (destructure "refresh" _) as [refresh|]; [|by eexists _, _].
  run.
  set (w2 := with_localStorage _ (with_localStorage _ w1)).
  assert (paired (localStorage w2)) as P2.
  { unfold paired. subst w2. simpl.
    rewrite lookup_insert_ne, !lookup_insert_eq by done. split; eauto. }
  destruct (Hapi (Config.mk "/auth/user/" GET JsUndefined api_headers false) w2)
    as (out2 & w3 & -> & R2).
  pose proof (recovery_paired _ _ R2 P2) as P3.
  destruct out2 as [userResponse|e]; eexists _, _; (split; [done|]); intros _; [|done].
  unfold paired in *. simpl. by rewrite !lookup_insert_ne.
Qed.

(** C4. Request interceptor: when the store holds an access token, the
    request leaves with the header [Authorization: Bearer <token>] made of
    exactly that token, every other header and field as it was; when no
    token is stored the request descriptor is returned unchanged.  The
    interceptor never fails and does not touch the browser state.  (The
    test is JavaScript's [if (token)]: a stored empty string counts as no
    token.) *)
Theorem request_interceptor_bearer config w :
  ∃ config',
    request_interceptor config w = Some (Fulfilled config', w) ∧
    (∀ t, localStorage w !! "access_token" = Some t → t ≠ EmptyString →
       Config.headers config' !! "Authorization" = Some ("Bearer " +:+ t) ∧
       (∀ h, h ≠ "Authorization" →
          Config.headers config' !! h = Config.headers config !! h) ∧
       Config.url config' = Config.url config ∧
       Config.method config' = Config.method config ∧
       Config.data config' = Config.data config ∧
       Config._retry config' = Config._retry config) ∧
    (localStorage w !! "access_token" = None → config' = config) ∧
    (localStorage w !! "access_token" = Some EmptyString → config' = config).
Proof.
  exists (authorize (localStorage w) config).
  split; [apply request_interceptor_authorize|].
  unfold authorize. split; [|split].
  - intros t Ht Hne. rewrite Ht. simpl. rewrite (eqb_empty_false _ Hne). simpl.
    split; [apply lookup_insert_eq|].
    split; [|done]. intros h Hh. by rewrite lookup_insert_ne.
  - by intros ->.
  - by intros ->.
Qed.

(** C1. A request that fails with 401 for the first time ([_retry] unset)
    while a refresh token is stored, and whose refresh call is answered
    with a new access token (a primitive value: a string, in practice):
    the response interceptor makes exactly one
    refresh call followed by exactly one retry of the original request;
    the retry is marked, its [Authorization] header is
    [Bearer <new token>], the store holds the new token, and whatever the
    retry brings (a 401 included) is handed to the caller as it is. *)
Theorem refresh_then_single_retry fuel error w r token st body access :
  (1 ≤ fuel)%nat →
  AxiosError.response error = Some r → Response.status r = 401 →
  Config._retry (AxiosError.config error) = false →
  localStorage w !! "refresh_token" = Some token → token ≠ EmptyString →
  network (wire_log w) (refresh_call token) = Http st body →
  validateStatus st = true →
  destructure "access" body = Some access →
  primitive access →
  ∃ out w' retried,
    response_error (api fuel) error w = Some (out, w') ∧
    wire_log w' = (wire_log w ++ [refresh_call token; ApiCall retried])%list ∧
    retried = Config.set_Authorization ("Bearer " +:+ ToString access)
                (Config.set_retry (AxiosError.config error)) ∧
    Config.headers retried !! "Authorization" = Some ("Bearer " +:+ ToString access) ∧
    Config._retry retried = true ∧
    localStorage w' !! "access_token" = Some (ToString access) ∧
    out = settled retried
            (network (wire_log w ++ [refresh_call token])%list (ApiCall retried)).
Proof.
  intros Hf Hresp H401 Hr Ht Hne Hn Hv Hd _.
  destruct fuel as [|fuel]; [lia|].
  pose proof (status_is_401_true _ _ Hresp H401) as H4.
  erewrite response_error_refreshed by done.
  rewrite api_retried by done. cbv zeta. simpl.
  rewrite authorize_fresh.
  eexists _, _, _. split; [done|]. simpl.
  rewrite <- app_assoc. simpl.
  repeat split; try done; apply lookup_insert_eq.
Qed.

(** C2. A request whose [_retry] flag is set and that fails again (with
    401 or anything else) is rejected to the caller with its error, with
    no refresh call and no change of state; and every request through
    [api] terminates after at most one refresh call and at most three
    calls in all (the request, the refresh, the retry). *)
Theorem retried_request_never_refreshes fuel api_k error config w :
  (2 ≤ fuel)%nat →
  Config._retry (AxiosError.config error) = true →
  response_error api_k error w = Some (Rejected (ThrownAxios error), w) ∧
  ∃ out w' calls,
    api fuel config w = Some (out, w') ∧
    wire_log w' = (wire_log w ++ calls)%list ∧
    (refresh_count calls ≤ 1)%nat ∧ (length calls ≤ 3)%nat.
Proof.
  intros Hf Hr. split.
  - apply response_error_pass. rewrite Hr. apply andb_false_r.
  - destruct fuel as [|[|fuel]]; [lia..|].
    destruct (api_recovery fuel config w) as (out & w' & Hrun & Hrec).
    destruct (recovery_log _ _ Hrec) as (calls & Hlog & Hcount & Hlen).
    exists out, w', (ApiCall (authorize (localStorage w) config) :: calls).
    split; [done|]. simpl in Hlog. rewrite Hlog, <- app_assoc.
    repeat split; [done | simpl; lia].
Qed.

(** C3. When the refresh call fails (a network failure, or any answer
    outside 2xx), the three entries of the store are removed, the browser
    is sent to [/login], and the caller gets a rejection carrying the
    error of the refresh call; nothing is retried. *)
Theorem refresh_failure_tears_down api_k error w r token :
  AxiosError.response error = Some r → Response.status r = 401 →
  Config._retry (AxiosError.config error) = false →
  localStorage w !! "refresh_token" = Some token → token ≠ EmptyString →
  match network (wire_log w) (refresh_call token) with
  | NetworkError => True
  | Http st _ => validateStatus st = false
  end →
  ∃ refreshError w',
    response_error api_k error w = Some (Rejected (ThrownAxios refreshError), w') ∧
    localStorage w' !! "access_token" = None ∧
    localStorage w' !! "refresh_token" = None ∧
    localStorage w' !! "user" = None ∧
    localStorage w' = logout_store (localStorage w) ∧
    location_href w' = "/login" ∧
    wire_log w' = (wire_log w ++ [refresh_call token])%list.
Proof.
  intros Hresp H401 Hr Ht Hne Hfail.
  pose proof (status_is_401_true _ _ Hresp H401) as H4.
  assert (∃ refreshError,
    settle (Config.mk (API_URL +:+ "/auth/refresh/") POST
              (JsObject [("refresh", JsString token)]) ∅ false)
           (network (wire_log w) (refresh_call token)) = inr refreshError)
    as [refreshError Hs].
  { unfold settle. destruct (network _ _) as [|st body]; [by eexists|].
    rewrite Hfail. by eexists. }
  exists refreshError. eexists. split; [by eapply response_error_refresh_failed|].
  simpl. unfold logout_store. repeat split.
  - by rewrite lookup_delete_ne, lookup_delete_ne, lookup_delete_eq.
  - by rewrite lookup_delete_ne, lookup_delete_eq.
  - by rewrite lookup_delete_eq.
Qed.

(** C5. A failure that is not a 401 (another 4xx, a 5xx, or a transport
    error without a response) is rejected with the original error,
    unchanged; no call is made and the browser state, the store included,
    is as it was. *)
Theorem non_auth_failure_passes_through api_k error w :
  match AxiosError.response error with
  | Some r => Response.status r ≠ 401
  | None => True
  end →
  response_error api_k error w = Some (Rejected (ThrownAxios error), w).
Proof.
  intros H. apply response_error_pass. unfold status_is_401.
  destruct (AxiosError.response error) as [r|]; [|done].
  apply Z.eqb_neq in H. by rewrite H.
Qed.

(** C8. On refresh success (the new access token being a primitive
    value) the only entry of the store that changes is
    the access token: after the whole recovery (refresh and retry) the
    store is the one before with [access_token] replaced; the refresh
    token, the cached user and every other key are as they were. *)
Theorem refresh_updates_access_token_only fuel error w r token st body access :
  (1 ≤ fuel)%nat →
  AxiosError.response error = Some r → Response.status r = 401 →
  Config._retry (AxiosError.config error) = false →
  localStorage w !! "refresh_token" = Some token → token ≠ EmptyString →
  network (wire_log w) (refresh_call token) = Http st body →
  validateStatus st = true →
  destructure "access" body = Some access →
  primitive access →
  ∃ out w',
    response_error (api fuel) error w = Some (out, w') ∧
    localStorage w' = <["access_token" := ToString access]> (localStorage w) ∧
    localStorage w' !! "refresh_token" = localStorage w !! "refresh_token" ∧
    localStorage w' !! "user" = localStorage w !! "user" ∧
    (∀ k, k ≠ "access_token" → localStorage w' !! k = localStorage w !! k).
Proof.
  intros Hf Hresp H401 Hr Ht Hne Hn Hv Hd _.
  destruct fuel as [|fuel]; [lia|].
  pose proof (status_is_401_true _ _ Hresp H401) as H4.
  erewrite response_error_refreshed by done.
  rewrite api_retried by done. cbv zeta. simpl.
  eexists _, _. split; [done|]. simpl.
  repeat split; try (intros k Hk); by rewrite ?lookup_insert_ne.
Qed.

(** C10. A first 401 with no refresh token in the store: the interceptor
    rejects with the original error (its request now marked [_retry]),
    makes no refresh call, removes nothing from the store and does not
    redirect: the browser state is as it was. *)
Theorem missing_refresh_token_rejects api_k error w r :
  AxiosError.response error = Some r → Response.status r = 401 →
  Config._retry (AxiosError.config error) = false →
  localStorage w !! "refresh_token" = None →
  response_error api_k error w =
    Some (Rejected (ThrownAxios
            (AxiosError.mk (Config.set_retry (AxiosError.config error))
                           (AxiosError.response error))), w).
Proof.
  intros Hresp H401 Hr Ht.
  apply response_error_no_token; [by eapply status_is_401_true | done |].
  by rewrite Ht.
Qed.

(** *** [checkAuth] *)



Lemma checkAuth_nothing_stored fuel w :
  localStorage w !! "access_token" = None ∨ localStorage w !! "user" = None →
  checkAuth fuel w = Some (Fulfilled tt, with_loading false w).
Proof.
  intros H.
  unfold checkAuth, try_finally, try_catch, checkAuth_restore.
  unfold bind at 1. unfold getItem at 1. unfold bind at 1. unfold getItem at 1.
  destruct (localStorage w !! "user") as [stored|]; [|done].
  destruct H as [->| [=]]. done.
Qed.


(** C6. Session pairing: with a backend that issues primitive values as
    tokens, starting from a store in which access token and
    refresh token are both present or both absent, the store is again
    paired after [login] (whatever else the backend answers), after [logout],
    and after the error branch of the response interceptor (refresh
    success, refresh failure and every other path); each of them
    terminates. *)
Theorem session_pairing_preserved fuel username password error w :
  (2 ≤ fuel)%nat →
  issues_primitive_tokens →
  paired (localStorage w) →
  (∃ out w', login fuel username password w = Some (out, w') ∧
             paired (localStorage w')) ∧
  (∃ w', logout w = Some (Fulfilled tt, w') ∧ paired (localStorage w')) ∧
  (∃ out w', response_error (api fuel) error w = Some (out, w') ∧
             paired (localStorage w')).
Proof.
  intros Hf _ Hp. destruct fuel as [|[|fuel]]; [lia..|]. repeat split.
  - destruct (login_recovery (S (S fuel)) username password w) as (out & w' & ? & ?).
    { intros c w0. apply api_recovery. }
    eauto.
  - eexists. split; [reflexivity|]. unfold paired. simpl.
    rewrite lookup_delete_ne, lookup_delete_ne, lookup_delete_eq by done.
    rewrite lookup_delete_ne, lookup_delete_eq by done.
    split; intros [? [=]].
  - destruct (response_error_recovery (S fuel) error w) as (out & w' & ? & R).
    eexists _, _. split; [done|]. by apply (recovery_paired _ _ R).
Qed.

(** C9 (as amended). [login] writes the two tokens (primitive values)
    as soon as the login
    call has answered, and the profile only once the profile call has
    answered: when both calls succeed the three entries are overwritten;
    when the profile call fails with anything but a 401, [login] rejects
    and the store keeps the new tokens, the entry of the cached user
    being left as it was. *)
Theorem login_writes_tokens_then_profile fuel username password w st body access refresh :
  (1 ≤ fuel)%nat →
  network (wire_log w)
          (ApiCall (authorize (localStorage w) (login_request username password)))
    = Http st body →
  validateStatus st = true →
  destructure "access" body = Some access →
  destructure "refresh" body = Some refresh →
  primitive access → primitive refresh →
  let tokens := <["refresh_token" := ToString refresh]>
                  (<["access_token" := ToString access]> (localStorage w)) in
  let answer :=
    network (wire_log w ++
               [ApiCall (authorize (localStorage w) (login_request username password))])%list
            (ApiCall (authorize tokens user_request)) in
  (∀ st2 profile, answer = Http st2 profile → validateStatus st2 = true →
     ∃ w', login fuel username password w = Some (Fulfilled profile, w') ∧
           localStorage w' = <["user" := JSON_stringify profile]> tokens) ∧
  (non_auth_failure answer →
     ∃ e w', login fuel username password w = Some (Rejected e, w') ∧
             localStorage w' = tokens ∧
             localStorage w' !! "user" = localStorage w !! "user").
Proof.
  intros Hf Hn Hv Ha Hr _ _ tokens answer.
  destruct fuel as [|fuel]; [lia|].
  rewrite (login_tokens_stored _ _ _ _ _ _ _ _ Hn Hv Ha Hr).
  unfold api_get. fold user_request. split; unfold bind at 1.
  - intros st2 profile Hn2 Hv2.
    erewrite api_fulfilled; [|exact Hn2|exact Hv2].
    eexists. split; reflexivity.
  - intros Hfail.
    edestruct api_non_auth_failure as [e ->]; [exact Hfail|].
    eexists _, _. split; [reflexivity|]. split; [reflexivity|].
    cbn [localStorage with_localStorage with_call]. subst tokens.
    by rewrite !lookup_insert_ne.
Qed.

(** ** The pipeline as a whole *)

Lemma response_error_recovered fuel error w :
  ∃ out w',
    response_error (api (S fuel)) error w = Some (out, w') ∧ recovered w error out w'.
Proof.
  destruct (status_is_401 error && negb (Config._retry (AxiosError.config error)))
    eqn:Hc.
  2:{ eexists _, _. split; [by apply response_error_pass | by constructor]. }
  apply andb_true_iff in Hc as [H401 Hr]. apply negb_true_iff in Hr.
  destruct (truthy (localStorage w !! "refresh_token")) eqn:Ht.
  2:{ eexists _, _. split; [by apply response_error_no_token | by constructor]. }
  destruct (localStorage w !! "refresh_token") as [token|] eqn:Hl; [|done].
  simpl in Ht. apply negb_true_iff, String.eqb_neq in Ht.
  destruct (settle (Config.mk (API_URL +:+ "/auth/refresh/") POST
                      (JsObject [("refresh", JsString token)]) ∅ false)
                   (network (wire_log w) (refresh_call token)))
    as [response|refreshError] eqn:Hs.
  2:{ eexists _, _. split; [by eapply response_error_refresh_failed|].
      by constructor. }
  unfold settle in Hs.
  destruct (network (wire_log w) (refresh_call token)) as [|st body] eqn:Hn; [done|].
  destruct (validateStatus st) eqn:Hv; [|done].
  destruct (destructure "access" body) as [access|] eqn:Hd.
  - erewrite response_error_refreshed by done.
    rewrite api_retried by done. cbv zeta.
    cbn [localStorage with_localStorage with_call wire_log].
    rewrite authorize_fresh.
    eexists _, _. split; [done|]. by apply recovered_retry.
  - eexists _, _. split; [by eapply response_error_refresh_malformed|].
    by constructor.
Qed.

Lemma api_recovered fuel config w :
  ∃ out w',
    api (S (S fuel)) config w = Some (out, w') ∧
    ((∃ response, out = Fulfilled response ∧
                  w' = with_call (ApiCall (authorize (localStorage w) config)) w) ∨
     (∃ error, recovered (with_call (ApiCall (authorize (localStorage w) config)) w)
                         error out w')).
Proof.
  rewrite api_unfold. cbv zeta. destruct (settle _ _) as [response|error].
  - eexists _, _. split; [done|]. left. eauto.
  - destruct (response_error_recovered fuel error
                (with_call (ApiCall (authorize (localStorage w) config)) w))
      as (out & w' & Hrun & Hrec).
    eexists _, _. split; [done|]. right. eauto.
Qed.

(** X1. Transparent recovery: a request answered 401 whose refresh call
    is granted (with a primitive value as the new token) and whose retry is answered 2xx fulfils with the response
    of the retry; three calls are made (request, refresh, retry), the
    store holds the new access token and the browser is not redirected. *)
Theorem api_transparent_recovery fuel config w body1 token st body access st3 body3 :
  (2 ≤ fuel)%nat →
  Config._retry config = false →
  network (wire_log w) (ApiCall (authorize (localStorage w) config)) = Http 401 body1 →
  localStorage w !! "refresh_token" = Some token → token ≠ EmptyString →
  network (wire_log w ++ [ApiCall (authorize (localStorage w) config)])%list
          (refresh_call token) = Http st body →
  validateStatus st = true →
  destructure "access" body = Some access →
  primitive access →
  network (wire_log w ++ [ApiCall (authorize (localStorage w) config);
                          refresh_call token])%list
          (ApiCall (Config.set_Authorization ("Bearer " +:+ ToString access)
                      (Config.set_retry (authorize (localStorage w) config))))
    = Http st3 body3 →
  validateStatus st3 = true →
  ∃ w',
    api fuel config w = Some (Fulfilled (Response.mk st3 body3), w') ∧
    wire_log w' =
      (wire_log w ++
        [ApiCall (authorize (localStorage w) config);
         refresh_call token;
         ApiCall (Config.set_Authorization ("Bearer " +:+ ToString access)
                    (Config.set_retry (authorize (localStorage w) config)))])%list ∧
    localStorage w' = <["access_token" := ToString access]> (localStorage w) ∧
    location_href w' = location_href w.
Proof.
  intros Hf Hr Hn1 Ht Hne Hn2 Hv Hd _ Hn3 Hv3.
  destruct fuel as [|[|fuel]]; [lia..|].
  rewrite api_unfold. cbv zeta. unfold settle at 1. rewrite Hn1.
  change (validateStatus 401) with false. cbv iota.
  erewrite response_error_refreshed;
    [| done | by cbn; rewrite authorize_retry | exact Ht | exact Hne | exact Hn2
     | exact Hv | exact Hd ].
  rewrite api_retried by done. cbv zeta.
  cbn [localStorage with_localStorage with_call wire_log AxiosError.config].
  rewrite authorize_fresh. unfold settled, settle.
  rewrite <- !app_assoc. cbn [app]. rewrite Hn3, Hv3.
  eexists. split; [reflexivity|]. cbn. by rewrite <- !app_assoc.
Qed.

(** X2. What a request can do to the browser.  Whatever the backend
    answers, a run of [api] does one of three things to the store: nothing;
    replace the access token (only when a refresh token is stored); or
    remove the three credential entries together with a redirect to
    [/login] (only when a refresh token is stored, and then the caller
    gets a rejection).  It never writes the refresh token or the cached
    user, never touches any other key, the user or [loading], and never
    redirects without clearing the store. *)
Theorem api_effect_on_browser fuel config w :
  (2 ≤ fuel)%nat →
  ∃ out w',
    api fuel config w = Some (out, w') ∧
    user w' = user w ∧ loading w' = loading w ∧
    ((localStorage w' = localStorage w ∧ location_href w' = location_href w) ∨
     (∃ access, truthy (localStorage w !! "refresh_token") = true ∧
                localStorage w' = <["access_token" := access]> (localStorage w) ∧
                location_href w' = location_href w) ∨
     (∃ e, truthy (localStorage w !! "refresh_token") = true ∧
           out = Rejected e ∧
           localStorage w' = logout_store (localStorage w) ∧
           location_href w' = "/login")).
Proof.
  intros Hf. destruct fuel as [|[|fuel]]; [lia..|].
  destruct (api_recovered fuel config w) as (out & w' & Hrun & Hcase).
  exists out, w'. split; [done|].
  destruct Hcase as [(response & -> & ->)|(error & Hrec)].
  { repeat split; try done. by left. }
  destruct Hrec as [e He|token e Ht Hne|token access Ht Hne retried];
    cbn; cbn [localStorage with_call] in *.
  - repeat split; try done. by left.
  - repeat split; try done. right. right. exists e.
    rewrite Ht. simpl. by rewrite (eqb_empty_false _ Hne).
  - repeat split; try done. right. left. exists access.
    rewrite Ht. simpl. by rewrite (eqb_empty_false _ Hne).
Qed.

Lemma authorize_idempotent ls config :
  authorize ls (authorize ls config) = authorize ls config.
Proof.
  unfold authorize. destruct (truthy (ls !! "access_token")); [|done].
  unfold Config.set_Authorization. simpl. by rewrite insert_insert_eq.
Qed.

(** X3. Passing a request through the request interceptor twice gives
    the same request as passing it once, and the state is not touched
    either time. *)
Theorem request_interceptor_idempotent config w :
  (await once := request_interceptor config in request_interceptor once) w
  = request_interceptor config w.
Proof.
  unfold bind. rewrite !request_interceptor_authorize.
  by rewrite authorize_idempotent.
Qed.

(** *** [login] against a backend that refuses *)

Lemma login_unfold fuel username password w :
  login fuel username password w =
    match api fuel (login_request username password) w with
    | Some (Fulfilled response, w1) =>
        match destructure "access" (Response.data response),
              destructure "refresh" (Response.data response) with
        | Some access, Some refresh =>
            (setItem "access_token" access ;;;
             setItem "refresh_token" refresh ;;;
             await userResponse := api_get fuel "/auth/user/" in
             setItem "user" (JsString (JSON_stringify (Response.data userResponse))) ;;;
             ret (Response.data userResponse)) w1
        | _, _ => Some (Rejected TypeError, w1)
        end
    | Some (Rejected e, w1) => Some (Rejected e, w1)
    | None => None
    end.
Proof.
  unfold login, api_post, login_request. unfold bind at 1.
  destruct (api fuel _ w) as [[[response|e] w1]|]; [|done..].
  destruct (destructure "access" (Response.data response)),
           (destructure "refresh" (Response.data response)); done.
Qed.

(** X4. Wrong credentials from a signed-out browser: when the login call
    is answered 401 and no refresh token is stored, [login] rejects with
    that 401 after this single call; nothing is written to the store and
    the browser is not redirected. *)
Theorem login_refused_signed_out fuel username password w body :
  (1 ≤ fuel)%nat →
  truthy (localStorage w !! "refresh_token") = false →
  network (wire_log w)
          (ApiCall (authorize (localStorage w) (login_request username password)))
    = Http 401 body →
  login fuel username password w =
    Some (Rejected (ThrownAxios
            (AxiosError.mk
               (Config.set_retry (authorize (localStorage w)
                                            (login_request username password)))
               (Some (Response.mk 401 body)))),
          with_call (ApiCall (authorize (localStorage w)
                                        (login_request username password))) w).
Proof.
  intros Hf Ht Hn. destruct fuel as [|fuel]; [lia|].
  rewrite login_unfold, api_unfold. cbv zeta. unfold settle. rewrite Hn.
  change (validateStatus 401) with false. cbv iota.
  rewrite response_error_no_token;
    [done | done | by cbn; rewrite authorize_retry | exact Ht].
Qed.

(** X5. Wrong credentials over a stale session whose refresh token is
    refused: the 401 of the login call sets off a refresh call; when that
    fails, the store is cleared, the browser is sent to [/login], and
    [login] rejects with the error of the refresh call (not with the 401
    of the login call); the login call is not repeated. *)
Theorem login_refused_over_stale_session fuel username password w body token :
  (1 ≤ fuel)%nat →
  localStorage w !! "refresh_token" = Some token → token ≠ EmptyString →
  network (wire_log w)
          (ApiCall (authorize (localStorage w) (login_request username password)))
    = Http 401 body →
  match network (wire_log w ++
                   [ApiCall (authorize (localStorage w)
                                       (login_request username password))])%list
                (refresh_call token) with
  | NetworkError => True
  | Http st _ => validateStatus st = false
  end →
  ∃ refreshError w',
    login fuel username password w = Some (Rejected (ThrownAxios refreshError), w') ∧
    Config.url (AxiosError.config refreshError) = API_URL +:+ "/auth/refresh/" ∧
    localStorage w' = logout_store (localStorage w) ∧
    location_href w' = "/login" ∧
    wire_log w' =
      (wire_log w ++
         [ApiCall (authorize (localStorage w) (login_request username password));
          refresh_call token])%list.
Proof.
  intros Hf Ht Hne Hn Hfail. destruct fuel as [|fuel]; [lia|].
  rewrite login_unfold, api_unfold. cbv zeta. unfold settle at 1. rewrite Hn.
  change (validateStatus 401) with false. cbv iota.
  set (w1 := with_call _ w).
  assert (∃ refreshError,
    settle (Config.mk (API_URL +:+ "/auth/refresh/") POST
              (JsObject [("refresh", JsString token)]) ∅ false)
           (network (wire_log w1) (refresh_call token)) = inr refreshError)
    as [refreshError Hs].
  { unfold settle. subst w1. cbn [wire_log with_call].
    destruct (network _ (refresh_call token)) as [|st body']; [by eexists|].
    rewrite Hfail. by eexists. }
  erewrite response_error_refresh_failed;
    [| done | by cbn; rewrite authorize_retry | exact Ht | exact Hne | exact Hs].
  exists refreshError. eexists. split; [reflexivity|].
  split; [by rewrite (settle_config _ _ _ Hs)|].
  subst w1. cbn. by rewrite <- app_assoc.
Qed.

(** X6. Wrong credentials over a session whose refresh token is still
    good (the refresh call issues a primitive value): the 401 of the
    login call is recovered like any other, so the
    login call goes out a second time, with the same credentials in its
    body and the refreshed token in its [Authorization] header. *)
Theorem login_credentials_sent_twice fuel username password w body token st body2 access :
  (2 ≤ fuel)%nat →
  localStorage w !! "refresh_token" = Some token → token ≠ EmptyString →
  network (wire_log w)
          (ApiCall (authorize (localStorage w) (login_request username password)))
    = Http 401 body →
  network (wire_log w ++
             [ApiCall (authorize (localStorage w)
                                 (login_request username password))])%list
          (refresh_call token) = Http st body2 →
  validateStatus st = true →
  destructure "access" body2 = Some access →
  primitive access →
  ∃ out w' again rest,
    login fuel username password w = Some (out, w') ∧
    wire_log w' =
      (wire_log w ++
         [ApiCall (authorize (localStorage w) (login_request username password));
          refresh_call token;
          ApiCall again] ++ rest)%list ∧
    Config.url again = "/auth/login/" ∧
    Config.method again = POST ∧
    Config.data again = login_body username password ∧
    Config.headers again !! "Authorization" = Some ("Bearer " +:+ ToString access).
Proof.
  intros Hf Ht Hne Hn Hn2 Hv Hd _. destruct fuel as [|[|fuel]]; [lia..|].
  rewrite login_unfold, api_unfold. cbv zeta. unfold settle at 1. rewrite Hn.
  change (validateStatus 401) with false. cbv iota.
  erewrite response_error_refreshed;
    [| done | by cbn; rewrite authorize_retry | exact Ht | exact Hne | exact Hn2
     | exact Hv | exact Hd ].
  rewrite api_retried by done. cbv zeta.
  cbn [localStorage with_localStorage with_call wire_log AxiosError.config].
  rewrite authorize_fresh.
  set (again := Config.set_Authorization _ _).
  set (w1 := with_call (ApiCall again) _).
  assert (wire_log w1 =
            (wire_log w ++
               [ApiCall (authorize (localStorage w) (login_request username password));
                refresh_call token; ApiCall again])%list) as Hlog1.
  { subst w1. cbn. by rewrite <- !app_assoc. }
  assert (Config.url again = "/auth/login/" ∧ Config.method again = POST ∧
          Config.data again = login_body username password ∧
          Config.headers again !! "Authorization" = Some ("Bearer " +:+ ToString access))
    as Hagain.
  { subst again. unfold authorize. cbn.
    destruct (truthy _); cbn; repeat split; apply lookup_insert_eq. }
  clearbody w1 again.
  destruct (settled again _) as [response|e].
  2:{ exists (Rejected e), w1, again, []. rewrite app_nil_r.
      split; [done|]. split; [done|]. exact Hagain. }
  destruct (destructure "access" (Response.data response)) as [a|].
  2:{ exists (Rejected TypeError), w1, again, []. rewrite app_nil_r.
      split; [done|]. split; [done|]. exact Hagain. }
  destruct (destructure "refresh" (Response.data response)) as [r|].
  2:{ exists (Rejected TypeError), w1, again, []. rewrite app_nil_r.
      split; [done|]. split; [done|]. exact Hagain. }
  unfold bind at 1. unfold setItem at 1, modify at 1.
  unfold bind at 1. unfold setItem at 1, modify at 1.
  unfold bind at 1. unfold api_get. fold user_request.
  set (w2 := with_localStorage _ (with_localStorage _ w1)).
  destruct (api_recovery fuel user_request w2) as (out2 & w3 & -> & R).
  destruct (recovery_log _ _ R) as (calls & Hlog3 & _ & _).
  cbn [wire_log with_call with_localStorage] in Hlog3. fold w2 in Hlog3.
  assert (wire_log w2 = wire_log w1) as Hw2 by done.
  rewrite Hw2, Hlog1 in Hlog3.
  destruct out2 as [userResponse|e]; eexists _, _, again, _;
    (split; [reflexivity|]); (split; [|exact Hagain]);
    cbn [wire_log with_localStorage]; rewrite Hlog3, <- !app_assoc; reflexivity.
Qed.

(** X7. After a [login] whose two calls succeed (the tokens issued being
    primitive values), the profile call itself
    already went out with the access token just received, and every
    later request through the request interceptor carries that token. *)
Theorem login_then_requests_carry_token
    fuel username password w st body access refresh st2 profile :
  (1 ≤ fuel)%nat →
  network (wire_log w)
          (ApiCall (authorize (localStorage w) (login_request username password)))
    = Http st body →
  validateStatus st = true →
  destructure "access" body = Some access →
  destructure "refresh" body = Some refresh →
  primitive access → primitive refresh →
  ToString access ≠ EmptyString →
  network (wire_log w ++
             [ApiCall (authorize (localStorage w) (login_request username password))])%list
          (ApiCall (authorize
                      (<["refresh_token" := ToString refresh]>
                         (<["access_token" := ToString access]> (localStorage w)))
                      user_request))
    = Http st2 profile →
  validateStatus st2 = true →
  ∃ w1 profile_call,
    login fuel username password w = Some (Fulfilled profile, w1) ∧
    wire_log w1 =
      (wire_log w ++
         [ApiCall (authorize (localStorage w) (login_request username password));
          ApiCall profile_call])%list ∧
    Config.url profile_call = "/auth/user/" ∧
    Config.headers profile_call !! "Authorization" = Some ("Bearer " +:+ ToString access) ∧
    ∀ config, ∃ sent,
      request_interceptor config w1 = Some (Fulfilled sent, w1) ∧
      Config.headers sent !! "Authorization" = Some ("Bearer " +:+ ToString access).
Proof.
  intros Hf Hn Hv Ha Hr _ _ Hne Hn2 Hv2. destruct fuel as [|fuel]; [lia|].
  rewrite (login_tokens_stored _ _ _ _ _ _ _ _ Hn Hv Ha Hr).
  unfold bind at 1. unfold api_get. fold user_request.
  erewrite api_fulfilled; [|exact Hn2|exact Hv2].
  assert (∀ (ls : gmap string string) c,
    authorize (<["refresh_token" := ToString refresh]>
                 (<["access_token" := ToString access]> ls)) c
    = Config.set_Authorization ("Bearer " +:+ ToString access) c) as Hauth.
  { intros ls c. unfold authorize.
    rewrite lookup_insert_ne, lookup_insert_eq by done. simpl.
    by rewrite (eqb_empty_false _ Hne). }
  eexists _, _. split; [reflexivity|].
  cbn [wire_log localStorage with_localStorage with_call Response.data].
  rewrite !Hauth.
  split; [by rewrite <- app_assoc|].
  split; [done|]. split; [apply lookup_insert_eq|].
  intros config. eexists. split; [apply request_interceptor_authorize|].
  cbn [localStorage with_localStorage with_call]. unfold authorize.
  rewrite lookup_insert_ne, lookup_insert_ne, lookup_insert_eq by done. simpl.
  rewrite (eqb_empty_false _ Hne). simpl. apply lookup_insert_eq.
Qed.

(** *** [logout] *)

Lemma logout_world w :
  logout w = Some (Fulfilled tt, with_localStorage logout_store w).
Proof. reflexivity. Qed.

Lemma logout_store_lookup ls :
  logout_store ls !! "access_token" = None ∧
  logout_store ls !! "refresh_token" = None ∧
  logout_store ls !! "user" = None.
Proof.
  unfold logout_store. repeat split.
  - by rewrite lookup_delete_ne, lookup_delete_ne, lookup_delete_eq.
  - by rewrite lookup_delete_ne, lookup_delete_eq.
  - by rewrite lookup_delete_eq.
Qed.

Lemma logout_store_idempotent ls : logout_store (logout_store ls) = logout_store ls.
Proof.
  apply map_eq. intros k.
  destruct (logout_store_lookup (logout_store ls)) as (Ha & Hr & Hu).
  destruct (logout_store_lookup ls) as (Ha' & Hr' & Hu').
  destruct (decide (k = "access_token")) as [->|?]; [congruence|].
  destruct (decide (k = "refresh_token")) as [->|?]; [congruence|].
  destruct (decide (k = "user")) as [->|?]; [congruence|].
  unfold logout_store. by rewrite !lookup_delete_ne.
Qed.

(** X8. [logout] ends the session for every later operation: it removes
    the three credential entries and no other key, doing it twice is the
    same as once, and from the state it leaves the request interceptor
    adds no header, [checkAuth] restores nothing and makes no call, and a
    first 401 is handed to the caller without a refresh call. *)
Theorem logout_ends_session w :
  ∃ w1,
    logout w = Some (Fulfilled tt, w1) ∧
    (logout ;;; logout) w = logout w ∧
    localStorage w1 !! "access_token" = None ∧
    localStorage w1 !! "refresh_token" = None ∧
    localStorage w1 !! "user" = None ∧
    (∀ k, k ≠ "access_token" → k ≠ "refresh_token" → k ≠ "user" →
          localStorage w1 !! k = localStorage w !! k) ∧
    wire_log w1 = wire_log w ∧
    (∀ config, request_interceptor config w1 = Some (Fulfilled config, w1)) ∧
    (∀ fuel, checkAuth fuel w1 = Some (Fulfilled tt, with_loading false w1)) ∧
    (∀ api_k error, ∃ e, response_error api_k error w1 = Some (Rejected e, w1)).
Proof.
  exists (with_localStorage logout_store w).
  destruct (logout_store_lookup (localStorage w)) as (Ha & Hr & Hu).
  split; [apply logout_world|].
  split.
  { unfold bind. rewrite !logout_world. unfold with_localStorage. simpl.
    by rewrite logout_store_idempotent. }
  do 3 (split; [done|]).
  split.
  { intros k ? ? ?. simpl. unfold logout_store. by rewrite !lookup_delete_ne. }
  split; [done|]. split.
  { intros config. rewrite request_interceptor_authorize. unfold authorize.
    simpl. by rewrite Ha. }
  split.
  { intros fuel. apply checkAuth_nothing_stored. by left. }
  intros api_k error.
  destruct (status_is_401 error && negb (Config._retry (AxiosError.config error)))
    eqn:Hc.
  - apply andb_true_iff in Hc as [H401 Hretry]. apply negb_true_iff in Hretry.
    eexists. apply response_error_no_token; [done..|]. simpl. by rewrite Hr.
  - eexists. by apply response_error_pass.
Qed.

(** *** Resource functions *)

Lemma run_api fuel op :
  Resource.run fuel op =
    (await response := api fuel (Resource.request_of op) in
     ret (Response.data response)).
Proof. by destruct op. Qed.

(** X9. Every resource function ([register], [getCurrentUser], [getById],
    [create], [update], [partialUpdate], [remove], [getDashboardStats],
    [respondToNotification]) makes a single attempt unless the answer is
    a 401: a 2xx answer is fulfilled with its body, a network failure or
    any other status is rejected with an error that carries the request
    as sent; in both cases exactly one call is made and the store is not
    touched. *)
Theorem resource_call_single_attempt fuel op w :
  (1 ≤ fuel)%nat →
  (∀ st body,
     network (wire_log w)
             (ApiCall (authorize (localStorage w) (Resource.request_of op)))
       = Http st body →
     validateStatus st = true →
     Resource.run fuel op w =
       Some (Fulfilled body,
             with_call (ApiCall (authorize (localStorage w)
                                           (Resource.request_of op))) w)) ∧
  (non_auth_failure
     (network (wire_log w)
              (ApiCall (authorize (localStorage w) (Resource.request_of op)))) →
   ∃ error,
     Resource.run fuel op w =
       Some (Rejected (ThrownAxios error),
             with_call (ApiCall (authorize (localStorage w)
                                           (Resource.request_of op))) w) ∧
     AxiosError.config error = authorize (localStorage w) (Resource.request_of op)).
Proof.
  intros Hf. destruct fuel as [|fuel]; [lia|]. rewrite run_api. split.
  - intros st body Hn Hv. unfold bind. by rewrite (api_fulfilled _ _ _ _ _ Hn Hv).
  - intros Hfail. unfold bind. rewrite api_unfold. cbv zeta.
    destruct (settle _ _) as [response|error] eqn:Hs.
    { unfold settle in Hs. destruct (network _ _) as [|st body]; [done|].
      destruct Hfail as [Hv _]. by rewrite Hv in Hs. }
    exists error. rewrite response_error_pass.
    + split; [done|]. by apply settle_config in Hs.
    + unfold settle in Hs. unfold status_is_401.
      destruct (network _ _) as [|st body]; [by injection Hs as <-|].
      destruct Hfail as [Hv Hne]. rewrite Hv in Hs. injection Hs as <-. simpl.
      apply Z.eqb_neq in Hne. by rewrite Hne.
Qed.

(** *** The authentication context *)

Lemma checkAuth_not_restored fuel w :
  truthy (localStorage w !! "access_token") && truthy (localStorage w !! "user") = false →
  checkAuth fuel w = Some (Fulfilled tt, with_loading false w).
Proof.
  intros Hc. unfold checkAuth, try_finally, try_catch, checkAuth_restore.
  unfold bind at 1. unfold getItem at 1. unfold bind at 1. unfold getItem at 1.
  destruct (localStorage w !! "user") as [stored|]; [|done]. by rewrite Hc.
Qed.

Lemma checkAuth_malformed fuel w stored :
  truthy (localStorage w !! "access_token") = true →
  localStorage w !! "user" = Some stored → stored ≠ EmptyString →
  JSON_parse stored = None →
  checkAuth fuel w = Some (Fulfilled tt, with_loading false w).
Proof.
  intros Ht Hs Hne Hp.
  unfold checkAuth, try_finally, try_catch, checkAuth_restore, JSON_parse_or_throw.
  unfold bind at 1. unfold getItem at 1. unfold bind at 1. unfold getItem at 1.
  rewrite Hs, Ht. simpl. rewrite (eqb_empty_false _ Hne). simpl.
  unfold bind at 1. by rewrite Hp.
Qed.

Lemma checkAuth_restored fuel w stored parsed :
  truthy (localStorage w !! "access_token") = true →
  localStorage w !! "user" = Some stored → stored ≠ EmptyString →
  JSON_parse stored = Some parsed →
  checkAuth fuel w =
    match api fuel user_request (with_user (Some parsed) w) with
    | Some (Fulfilled response, w1) =>
        Some (Fulfilled tt,
              with_loading false
                (with_localStorage
                   (insert "user" (JSON_stringify (Response.data response)))
                   (with_user (Some (Response.data response)) w1)))
    | Some (Rejected e, w1) =>
        Some (Fulfilled tt,
              with_loading false (with_user None (with_localStorage logout_store w1)))
    | None => None
    end.
Proof.
  intros Ht Hs Hne Hp.
  unfold checkAuth, try_finally, try_catch, checkAuth_restore, JSON_parse_or_throw.
  unfold bind at 1. unfold getItem at 1. unfold bind at 1. unfold getItem at 1.
  rewrite Hs, Ht. simpl. rewrite (eqb_empty_false _ Hne). simpl.
  unfold bind at 1. rewrite Hp. unfold ret at 1.
  unfold bind at 1. unfold setUser at 1, modify at 1.
  unfold checkAuth_verify, try_catch, getCurrentUser, api_get. fold user_request.
  unfold bind at 1. unfold bind at 1.
  by destruct (api fuel user_request _) as [[[response|e] w1]|].
Qed.


(** X10. A failed verification at startup signs the user out, whatever
    the reason: with a token and a readable cached user in the store, if
    the profile call fails with a network error or any status other than
    401, [checkAuth] fulfils with the user unset and the three credential
    entries removed, after that single call and without a redirect. *)
Theorem checkAuth_failure_signs_out fuel w token stored parsed :
  (1 ≤ fuel)%nat →
  localStorage w !! "access_token" = Some token → token ≠ EmptyString →
  localStorage w !! "user" = Some stored → stored ≠ EmptyString →
  JSON_parse stored = Some parsed →
  non_auth_failure
    (network (wire_log w) (ApiCall (authorize (localStorage w) user_request))) →
  ∃ w',
    checkAuth fuel w = Some (Fulfilled tt, w') ∧
    user w' = None ∧ loading w' = false ∧
    localStorage w' = logout_store (localStorage w) ∧
    location_href w' = location_href w ∧
    wire_log w' = (wire_log w ++ [ApiCall (authorize (localStorage w) user_request)])%list.
Proof.
  intros Hf Ht Hne Hs Hsne Hp Hfail. destruct fuel as [|fuel]; [lia|].
  rewrite (checkAuth_restored _ _ stored parsed); [|by rewrite Ht; simpl; rewrite (eqb_empty_false _ Hne)|done..].
  destruct (api_non_auth_failure fuel user_request (with_user (Some parsed) w))
    as [error ->]; [exact Hfail|].
  by eexists.
Qed.

(** X11. A successful verification at startup replaces the cached user
    by the one the backend returns: the user shown and the [user] entry
    of the store both become the answer of the profile call; the tokens
    stay as they are. *)
Theorem checkAuth_success_refreshes_user fuel w token stored parsed st current :
  (1 ≤ fuel)%nat →
  localStorage w !! "access_token" = Some token → token ≠ EmptyString →
  localStorage w !! "user" = Some stored → stored ≠ EmptyString →
  JSON_parse stored = Some parsed →
  network (wire_log w) (ApiCall (authorize (localStorage w) user_request))
    = Http st current →
  validateStatus st = true →
  ∃ w',
    checkAuth fuel w = Some (Fulfilled tt, w') ∧
    user w' = Some current ∧ loading w' = false ∧
    localStorage w' = <["user" := JSON_stringify current]> (localStorage w) ∧
    Config.headers (authorize (localStorage w) user_request) !! "Authorization"
      = Some ("Bearer " +:+ token) ∧
    wire_log w' = (wire_log w ++ [ApiCall (authorize (localStorage w) user_request)])%list.
Proof.
  intros Hf Ht Hne Hs Hsne Hp Hn Hv. destruct fuel as [|fuel]; [lia|].
  rewrite (checkAuth_restored _ _ stored parsed); [|by rewrite Ht; simpl; rewrite (eqb_empty_false _ Hne)|done..].
  erewrite api_fulfilled; [|exact Hn|exact Hv].
  eexists. split; [reflexivity|]. cbn. repeat split.
  unfold authorize. rewrite Ht. simpl. rewrite (eqb_empty_false _ Hne). simpl.
  apply lookup_insert_eq.
Qed.

(** X12. A cached user that [JSON.parse] refuses: [checkAuth] restores
    nothing and makes no call, and it removes nothing either: the tokens
    and the unreadable [user] entry stay in the store, so the next start
    finds the same state again. *)
Theorem checkAuth_unreadable_cache fuel w token stored :
  localStorage w !! "access_token" = Some token → token ≠ EmptyString →
  localStorage w !! "user" = Some stored → stored ≠ EmptyString →
  JSON_parse stored = None →
  checkAuth fuel w = Some (Fulfilled tt, with_loading false w) ∧
  checkAuth fuel (with_loading false w) = Some (Fulfilled tt, with_loading false w).
Proof.
  intros Ht Hne Hs Hsne Hp.
  assert (truthy (localStorage w !! "access_token") = true) as Htr
    by (rewrite Ht; simpl; by rewrite (eqb_empty_false _ Hne)).
  split; [by apply (checkAuth_malformed _ _ stored)|].
  by rewrite (checkAuth_malformed _ _ stored).
Qed.

(** X13. How startup ends.  From a state with no user set, [checkAuth]
    (with any store and any backend) fulfils with [loading] cleared, and
    - if the application ends authenticated ([!!user]), the store holds
      an access token and its [user] entry is the JSON text of exactly
      the user shown;
    - if it ends unauthenticated, then nothing happened at all, or the
      three credential entries are gone and no user is set, or the
      profile call was answered with a falsy value ([null], the empty
      string): that value is now the user, while the access token is
      still stored and the [user] entry holds its JSON text. *)
Theorem checkAuth_outcome fuel w :
  (2 ≤ fuel)%nat →
  user w = None →
  ∃ w',
    checkAuth fuel w = Some (Fulfilled tt, w') ∧
    loading w' = false ∧
    (isAuthenticated w' = true →
       ∃ u, user w' = Some u ∧
            is_Some (localStorage w' !! "access_token") ∧
            localStorage w' !! "user" = Some (JSON_stringify u)) ∧
    (isAuthenticated w' = false →
       w' = with_loading false w ∨
       (user w' = None ∧
        localStorage w' !! "access_token" = None ∧
        localStorage w' !! "refresh_token" = None ∧
        localStorage w' !! "user" = None) ∨
       (∃ u, user w' = Some u ∧ js_truthy u = false ∧
             is_Some (localStorage w' !! "access_token") ∧
             localStorage w' !! "user" = Some (JSON_stringify u))).
Proof.
  intros Hf Hu. destruct fuel as [|[|fuel]]; [lia..|].
  assert (∀ w0, w0 = with_loading false w →
    loading w0 = false ∧
    (isAuthenticated w0 = true →
       ∃ u, user w0 = Some u ∧
            is_Some (localStorage w0 !! "access_token") ∧
            localStorage w0 !! "user" = Some (JSON_stringify u)) ∧
    (isAuthenticated w0 = false →
       w0 = with_loading false w ∨
       (user w0 = None ∧
        localStorage w0 !! "access_token" = None ∧
        localStorage w0 !! "refresh_token" = None ∧
        localStorage w0 !! "user" = None) ∨
       (∃ u, user w0 = Some u ∧ js_truthy u = false ∧
             is_Some (localStorage w0 !! "access_token") ∧
             localStorage w0 !! "user" = Some (JSON_stringify u)))) as Hidle.
  { intros w0 ->. split; [done|]. split; [|by left].
    unfold isAuthenticated. cbn. by rewrite Hu. }
  destruct (truthy (localStorage w !! "access_token") &&
            truthy (localStorage w !! "user")) eqn:Hc.
  2:{ rewrite checkAuth_not_restored by done. eexists. split; [done|].
      by apply Hidle. }
  apply andb_true_iff in Hc as [Ht Hs].
  destruct (localStorage w !! "user") as [stored|] eqn:Hstored; [|done].
  simpl in Hs. apply negb_true_iff, String.eqb_neq in Hs.
  destruct (JSON_parse stored) as [parsed|] eqn:Hp.
  2:{ rewrite (checkAuth_malformed _ _ stored) by done. eexists. split; [done|].
      by apply Hidle. }
  rewrite (checkAuth_restored _ _ stored parsed) by done.
  destruct (api_recovered fuel user_request (with_user (Some parsed) w))
    as (out & w1 & -> & Hcase).
  destruct out as [response|e].
  - eexists. split; [reflexivity|]. split; [done|].
    set (u := Response.data response).
    assert (is_Some (localStorage w1 !! "access_token")) as Hacc.
    { destruct Hcase as [(response' & _ & ->)|(error & Hrec)]; cbn.
      + destruct (localStorage w !! "access_token"); [eauto|done].
      + inversion Hrec; subst; cbn. rewrite lookup_insert_eq. eauto. }
    unfold isAuthenticated.
    cbn [user localStorage with_loading with_localStorage with_user].
    split.
    + intros _. exists u. split; [done|].
      rewrite lookup_insert_ne by done. split; [done|]. apply lookup_insert_eq.
    + intros Hfalsy. right. right. exists u. split; [done|]. split; [done|].
      rewrite lookup_insert_ne by done. split; [done|]. apply lookup_insert_eq.
  - eexists. split; [reflexivity|]. split; [done|].
    unfold isAuthenticated.
    cbn [user localStorage with_loading with_localStorage with_user].
    split; [done|]. intros _. right. left. split; [done|].
    apply logout_store_lookup.
Qed.

Lemma recovery_user w w' :
  recovery w w' → user w' = user w ∧ loading w' = loading w.
Proof. by destruct 1. Qed.

Lemma login_runs fuel username password w :
  ∃ out w1,
    login (S (S fuel)) username password w = Some (out, w1) ∧
    user w1 = user w ∧ loading w1 = loading w.
Proof.
  rewrite login_unfold.
  destruct (api_recovery fuel (login_request username password) w)
    as (out1 & w1 & -> & R1).
  apply recovery_user in R1 as [Hu1 Hl1]. cbn in Hu1, Hl1.
  destruct out1 as [response|e]; [|by eexists _, _].
  destruct (destructure "access" (Response.data response)) as [access|];
    [|by eexists _, _].
  destruct (destructure "refresh" (Response.data response)) as [refresh|];
    [|by eexists _, _].
  unfold bind at 1. unfold setItem at 1, modify at 1.
  unfold bind at 1. unfold setItem at 1, modify at 1.
  unfold bind at 1. unfold api_get. fold user_request.
  set (w2 := with_localStorage _ (with_localStorage _ w1)).
  destruct (api_recovery fuel user_request w2) as (out2 & w3 & -> & R2).
  apply recovery_user in R2 as [Hu2 Hl2]. cbn in Hu2, Hl2.
  destruct out2 as [userResponse|e]; eexists _, _; (split; [reflexivity|]); cbn;
    by rewrite Hu2, Hl2.
Qed.

(** X14. [login] of the authentication context sets the user exactly
    when the login of the API service fulfils, and then to the profile it
    returns; when that login rejects, the same error is thrown again and
    the user is left as it was, whatever the store has become. *)
Theorem context_login_sets_user_on_success fuel username password w :
  (2 ≤ fuel)%nat →
  ∃ out w1,
    login fuel username password w = Some (out, w1) ∧
    user w1 = user w ∧
    match out with
    | Fulfilled profile =>
        context_login fuel username password w
          = Some (Fulfilled profile, with_user (Some profile) w1) ∧
        isAuthenticated (with_user (Some profile) w1) = js_truthy profile
    | Rejected e =>
        context_login fuel username password w = Some (Rejected e, w1) ∧
        isAuthenticated w1 = isAuthenticated w
    end.
Proof.
  intros Hf. destruct fuel as [|[|fuel]]; [lia..|].
  destruct (login_runs fuel username password w) as (out & w1 & Hrun & Hu & _).
  exists out, w1. split; [done|]. split; [done|].
  unfold context_login, try_catch.
  destruct out as [profile|e]; unfold bind at 1; rewrite Hrun; [done|].
  split; [done|]. unfold isAuthenticated. by rewrite Hu.
Qed.


End Properties.

(** ** Properties of the helper utilities *)

Section HelperProperties.

Import Helpers.
Local Open Scope list_scope.

(** *** The matcher decides the relation *)

Lemma matches_seq_inv r1 r2 s :
  matches (Seq r1 r2) s → ∃ s1 s2, s = s1 ++ s2 ∧ matches r1 s1 ∧ matches r2 s2.
Proof. inversion 1; subst; eauto. Qed.

Lemma matches_alt_inv r1 r2 s :
  matches (Alt r1 r2) s → matches r1 s ∨ matches r2 s.
Proof. inversion 1; subst; eauto. Qed.

Lemma matches_class_inv p s :
  matches (Class p) s → ∃ c, s = [c] ∧ p c = true.
Proof. inversion 1; subst; eauto. Qed.

Lemma nullable_matches r : nullable r = true ↔ matches r [].
Proof.
  induction r as [| |p|r1 IH1 r2 IH2|r1 IH1 r2 IH2|r IH]; simpl.
  - split; [done | inversion 1].
  - split; [constructor | done].
  - split; [done | inversion 1].
  - rewrite andb_true_iff, IH1, IH2. split.
    + intros [H1 H2]. apply (matches_seq _ _ [] [] H1 H2).
    + intros H. apply matches_seq_inv in H as (s1 & s2 & Heq & H1 & H2).
      symmetry in Heq. apply app_eq_nil in Heq as [-> ->]. done.
  - rewrite orb_true_iff, IH1, IH2. split.
    + intros [H|H]; [by apply matches_alt_l | by apply matches_alt_r].
    + apply matches_alt_inv.
  - split; [constructor | done].
Qed.

Lemma matches_star_cons r c s :
  matches (Star r) (c :: s) →
  ∃ s1 s2, s = s1 ++ s2 ∧ matches r (c :: s1) ∧ matches (Star r) s2.
Proof.
  intros H. remember (Star r) as r' eqn:Hr. remember (c :: s) as cs eqn:Hcs.
  revert s Hcs.
  induction H as [| | | | | |r0 s1 s2 H1 _ H2 IH2]; intros t Hcs; try done.
  injection Hr as ->. destruct s1 as [|c' s1'].
  - simpl in Hcs. by apply IH2.
  - injection Hcs as -> <-. eauto.
Qed.

Lemma deriv_matches c r s : matches (deriv c r) s ↔ matches r (c :: s).
Proof.
  revert s. induction r as [| |p|r1 IH1 r2 IH2|r1 IH1 r2 IH2|r IH]; intros s; simpl.
  - split; inversion 1.
  - split; inversion 1.
  - destruct (p c) eqn:Hp; split.
    + inversion 1; subst. by constructor.
    + intros H. apply matches_class_inv in H as (c' & [= -> ->] & _). constructor.
    + inversion 1.
    + intros H. apply matches_class_inv in H as (c' & [= -> ->] & Hc). congruence.
  - assert (matches (Seq (deriv c r1) r2) s →
            matches (Seq r1 r2) (c :: s)) as Hleft.
    { intros H. apply matches_seq_inv in H as (s1 & s2 & -> & H1 & H2).
      apply IH1 in H1. apply (matches_seq _ _ (c :: s1) s2 H1 H2). }
    assert (matches (Seq r1 r2) (c :: s) →
            matches (Seq (deriv c r1) r2) s ∨
            (matches r1 [] ∧ matches r2 (c :: s))) as Hright.
    { intros H. apply matches_seq_inv in H as (s1 & s2 & Heq & H1 & H2).
      destruct s1 as [|c' s1'].
      - simpl in Heq. subst. right. done.
      - injection Heq as <- ->. left. apply matches_seq; [by apply IH1 | done]. }
    destruct (nullable r1) eqn:Hn.
    + split.
      * intros H. apply matches_alt_inv in H as [H|H]; [by apply Hleft|].
        apply (matches_seq _ _ [] (c :: s)); [by apply nullable_matches|].
        by apply IH2.
      * intros H. destruct (Hright H) as [H'|[_ H']].
        -- by apply matches_alt_l.
        -- apply matches_alt_r. by apply IH2.
    + split; [done|].
      intros H. destruct (Hright H) as [H'|[Hnil _]]; [done|].
      apply nullable_matches in Hnil. congruence.
  - split.
    + intros H. apply matches_alt_inv in H as [H|H].
      * apply matches_alt_l. by apply IH1.
      * apply matches_alt_r. by apply IH2.
    + intros H. apply matches_alt_inv in H as [H|H].
      * apply matches_alt_l. by apply IH1.
      * apply matches_alt_r. by apply IH2.
  - split.
    + intros H. apply matches_seq_inv in H as (s1 & s2 & -> & H1 & H2).
      apply IH in H1. apply (matches_star_more _ (c :: s1) s2 H1 H2).
    + intros H. apply matches_star_cons in H as (s1 & s2 & -> & H1 & H2).
      apply matches_seq; [by apply IH | done].
Qed.

Lemma test_matches r s : test r s = true ↔ matches r s.
Proof.
  revert r. induction s as [|c s IH]; intros r; simpl.
  - apply nullable_matches.
  - rewrite IH. apply deriv_matches.
Qed.

(** *** Runs of one class *)

Lemma matches_star_class p s :
  matches (Star (Class p)) s ↔ Forall (λ c, p c = true) s.
Proof.
  split.
  - intros H. remember (Star (Class p)) as r eqn:Hr.
    induction H as [| | | | | |r0 s1 s2 H1 _ H2 IH2]; try done.
    injection Hr as ->. apply matches_class_inv in H1 as (c & -> & Hc).
    simpl. constructor; [done|]. by apply IH2.
  - induction 1 as [|c s Hc _ IH]; [constructor|].
    apply (matches_star_more _ [c] s); [by constructor | done].
Qed.

Lemma matches_plus_class p s :
  matches (Plus (Class p)) s ↔ s ≠ [] ∧ Forall (λ c, p c = true) s.
Proof.
  unfold Plus. split.
  - intros H. apply matches_seq_inv in H as (s1 & s2 & -> & H1 & H2).
    apply matches_class_inv in H1 as (c & -> & Hc). simpl. split; [done|].
    constructor; [done|]. by apply matches_star_class.
  - intros [Hne Hall]. destruct s as [|c s]; [done|].
    inversion Hall; subst.
    apply (matches_seq _ _ [c] s); [by constructor|].
    by apply matches_star_class.
Qed.

(** *** [isValidEmail], [isValidPhone] *)

Lemma matches_unit (k : N) s : matches (Class (N.eqb k)) s ↔ s = [k].
Proof.
  split.
  - intros H. apply matches_class_inv in H as (c & -> & Hc).
    apply N.eqb_eq in Hc. by subst.
  - intros ->. constructor. apply N.eqb_refl.
Qed.

Lemma isValidEmail_parts (email : list N) :
  isValidEmail email = true ↔
  ∃ local d1 d2,
    email = local ++ [64%N] ++ d1 ++ [46%N] ++ d2 ∧
    local ≠ [] ∧ d1 ≠ [] ∧ d2 ≠ [] ∧
    Forall (λ c, not_space_or_at c = true) local ∧
    Forall (λ c, not_space_or_at c = true) d1 ∧
    Forall (λ c, not_space_or_at c = true) d2.
Proof.
  unfold isValidEmail, emailRegex. rewrite test_matches. split.
  - intros H.
    apply matches_seq_inv in H as (local & s1 & -> & Hl & H).
    apply matches_seq_inv in H as (at_ & s2 & -> & Ha & H).
    apply matches_seq_inv in H as (d1 & s3 & -> & Hd1 & H).
    apply matches_seq_inv in H as (dot & d2 & -> & Hdot & Hd2).
    apply matches_unit in Ha as ->. apply matches_unit in Hdot as ->.
    apply matches_plus_class in Hl as [? ?].
    apply matches_plus_class in Hd1 as [? ?].
    apply matches_plus_class in Hd2 as [? ?].
    exists local, d1, d2. done.
  - intros (local & d1 & d2 & -> & ? & ? & ? & ? & ? & ?).
    apply matches_seq; [by apply matches_plus_class|].
    apply matches_seq; [by apply matches_unit|].
    apply matches_seq; [by apply matches_plus_class|].
    apply matches_seq; [by apply matches_unit|].
    by apply matches_plus_class.
Qed.

(** X16. [isValidEmail] accepts exactly the strings of the shape
    [local @ d1 . d2] in which the three parts are non-empty and contain
    neither white space nor [@] (dots are allowed inside every part). *)
Theorem isValidEmail_shape (email : list N) :
  isValidEmail email = true ↔
  ∃ local d1 d2,
    email = local ++ [64%N] ++ d1 ++ [46%N] ++ d2 ∧
    local ≠ [] ∧ d1 ≠ [] ∧ d2 ≠ [] ∧
    Forall (λ c, not_space_or_at c = true) local ∧
    Forall (λ c, not_space_or_at c = true) d1 ∧
    Forall (λ c, not_space_or_at c = true) d2.
Proof. exact (isValidEmail_parts email). Qed.

Lemma no_at_in_part (part : list N) :
  Forall (λ c, not_space_or_at c = true) part →
  filter (λ c, c = 64%N) part = [] ∧ Forall (λ c, is_space c = false) part.
Proof.
  induction 1 as [|c part Hc _ [IH1 IH2]]; [done|].
  unfold not_space_or_at in Hc. apply andb_true_iff in Hc as [Hs Ha].
  apply negb_true_iff in Hs, Ha. apply N.eqb_neq in Ha.
  split; [|by constructor].
  rewrite filter_cons. by destruct (decide (c = 64%N)).
Qed.

(** X17. What an accepted e-mail address is guaranteed to be: it holds
    exactly one [@], which is neither its first nor its last code unit,
    no white space at all, and at least five code units. *)
Theorem isValidEmail_guarantees (email : list N) :
  isValidEmail email = true →
  length (filter (λ c, c = 64%N) email) = 1%nat ∧
  Forall (λ c, is_space c = false) email ∧
  (5 ≤ length email)%nat ∧
  head email ≠ Some 64%N ∧ last email ≠ Some 64%N.
Proof.
  intros H. apply isValidEmail_parts in H
    as (local & d1 & d2 & -> & Hl & Hd1 & Hd2 & Fl & F1 & F2).
  destruct (no_at_in_part _ Fl) as [Al Sl].
  destruct (no_at_in_part _ F1) as [A1 S1].
  destruct (no_at_in_part _ F2) as [A2 S2].
  repeat split.
  - rewrite !filter_app, Al, A1, A2. done.
  - rewrite !Forall_app. repeat split; try done; by repeat constructor.
  - rewrite !length_app. simpl.
    destruct local, d1, d2; simpl; try done; lia.
  - destruct local as [|c local]; [done|]. simpl. intros [= ->].
    inversion Fl; subst. done.
  - rewrite !app_assoc. destruct d2 as [|c d2] using rev_ind; [done|].
    rewrite !app_assoc, last_snoc. intros [= ->].
    apply Forall_app in F2 as [_ F2]. inversion F2; subst. done.
Qed.

(** X18. [isValidPhone] accepts exactly the strings of at least ten code
    units made of digits, white space, [+], [(], [)] and [-]; it asks
    for no digit, so ten blanks pass. *)
Theorem isValidPhone_shape (phone : list N) :
  (isValidPhone phone = true ↔
   (10 ≤ length phone)%nat ∧ Forall (λ c, phone_char c = true) phone) ∧
  ((10 ≤ length phone)%nat → Forall (λ c, is_space c = true) phone →
   isValidPhone phone = true).
Proof.
  assert (isValidPhone phone = true ↔
          (10 ≤ length phone)%nat ∧ Forall (λ c, phone_char c = true) phone) as Hiff.
  { unfold isValidPhone, phoneRegex.
    rewrite andb_true_iff, Nat.leb_le, test_matches, matches_plus_class.
    split; [by intros (? & _ & ?)|]. intros [Hlen Hall]. repeat split; try done.
    intros ->. simpl in Hlen. lia. }
  split; [done|]. intros Hlen Hall. apply Hiff. split; [done|].
  eapply Forall_impl; [exact Hall|]. intros c Hc. simpl in Hc.
  unfold phone_char. rewrite Hc. by rewrite orb_true_r.
Qed.

(** *** [truncateText] *)

Lemma length_dots : length (of_ascii "...") = 3%nat.
Proof. reflexivity. Qed.

Lemma truncateText_kept (t : list N) m :
  t = [] ∨ Z.of_nat (length t) ≤ default 100%Z m →
  truncateText (Some t) m = Some t.
Proof.
  intros H. unfold truncateText. cbv zeta.
  destruct H as [->|H]; [done|].
  apply Z.leb_le in H. rewrite H. by rewrite orb_true_r.
Qed.

Lemma truncateText_cut (t : list N) m :
  t ≠ [] → default 100%Z m < Z.of_nat (length t) →
  truncateText (Some t) m = Some (take (Z.to_nat (default 100%Z m)) t ++ of_ascii "...").
Proof.
  intros Hne H. unfold truncateText. cbv zeta.
  apply Z.leb_gt in H. rewrite H.
  destruct t; [done|]. done.
Qed.

(** X19. [truncateText] returns a text that fits unchanged; a longer
    text becomes its first [maxLength] code units followed by three
    dots, so the result has [maxLength + 3] code units (three for a
    negative [maxLength]): more than [maxLength], and up to two more
    than the text it was given.  [null], [undefined] and the empty
    string come back as they are. *)
Theorem truncateText_result (t : list N) (m : option Z) :
  truncateText None m = None ∧
  ∃ r,
    truncateText (Some t) m = Some r ∧
    (t = [] ∨ Z.of_nat (length t) ≤ default 100%Z m → r = t) ∧
    (t ≠ [] → default 100%Z m < Z.of_nat (length t) →
       r = take (Z.to_nat (default 100%Z m)) t ++ of_ascii "..." ∧
       length r = (Z.to_nat (default 100%Z m) + 3)%nat ∧
       (length r ≤ length t + 2)%nat ∧
       take (Z.to_nat (default 100%Z m)) r = take (Z.to_nat (default 100%Z m)) t).
Proof.
  split; [done|].
  destruct (decide (t = [] ∨ Z.of_nat (length t) ≤ default 100%Z m)) as [Hk|Hc].
  - exists t. split; [by apply truncateText_kept|]. split; [done|].
    intros Hne Hlt. destruct Hk as [->|Hle]; [done | lia].
  - assert (t ≠ [] ∧ default 100%Z m < Z.of_nat (length t)) as [Hne Hlt].
    { split; [intros ->; apply Hc; by left | ]. apply Z.nle_gt. intros ?.
      apply Hc. by right. }
    eexists. split; [by apply truncateText_cut|]. split; [done|].
    intros _ _.
    assert (length (take (Z.to_nat (default 100%Z m)) t) = Z.to_nat (default 100%Z m))
      as Htake by (rewrite length_take; lia).
    split; [done|]. rewrite length_app, length_dots, Htake.
    split; [done|]. split.
    + destruct t; [done|]. simpl in *. lia.
    + rewrite take_app_le by lia. rewrite take_take. f_equal. lia.
Qed.

(** X20. Truncating twice with the same [maxLength] is the same as
    truncating once. *)
Theorem truncateText_idempotent (text : option (list N)) (m : option Z) :
  truncateText (truncateText text m) m = truncateText text m.
Proof.
  destruct text as [t|]; [|done].
  destruct (decide (t = [] ∨ Z.of_nat (length t) ≤ default 100%Z m)) as [Hk|Hc].
  - by rewrite !truncateText_kept.
  - assert (t ≠ [] ∧ default 100%Z m < Z.of_nat (length t)) as [Hne Hlt].
    { split; [intros ->; apply Hc; by left | ]. apply Z.nle_gt. intros ?.
      apply Hc. by right. }
    rewrite (truncateText_cut t) by done.
    assert (length (take (Z.to_nat (default 100%Z m)) t) = Z.to_nat (default 100%Z m))
      as Htake by (rewrite length_take; lia).
    rewrite truncateText_cut.
    + rewrite take_app_le by lia. rewrite take_take. do 3 f_equal. lia.
    + intros Heq. apply (f_equal length) in Heq.
      rewrite length_app, length_dots in Heq. simpl in Heq. lia.
    + rewrite length_app, length_dots, Htake. lia.
Qed.

(** *** [getInitials] *)

Lemma split_nonempty sep s : split sep s ≠ [].
Proof.
  destruct s as [|c s]; simpl; [done|].
  destruct (c =? sep)%N; [done|]. by destruct (split sep s).
Qed.

Lemma split_word sep (word : list N) :
  sep ∉ word → split sep word = [word].
Proof.
  induction word as [|c word IH]; [done|]. intros Hn.
  apply not_elem_of_cons in Hn as [Hc Hw]. simpl.
  destruct (N.eqb_spec c sep) as [->|_]; [done|]. by rewrite IH.
Qed.

Lemma split_first sep (word rest : list N) :
  sep ∉ word → split sep (word ++ sep :: rest) = word :: split sep rest.
Proof.
  induction word as [|c word IH]; intros Hn; simpl.
  - by rewrite N.eqb_refl.
  - apply not_elem_of_cons in Hn as [Hc Hw].
    destruct (N.eqb_spec c sep) as [->|_]; [done|]. by rewrite IH.
Qed.

Lemma split_last sep (before after : list N) :
  ∃ segment rest,
    split sep (before ++ sep :: after) = segment :: rest ∧ rest ≠ [] ∧
    last rest = last (split sep after).
Proof.
  induction before as [|c before (segment & rest & IH & Hne & Hlast)]; simpl.
  - rewrite N.eqb_refl. eexists _, _. split; [done|].
    split; [apply split_nonempty | done].
  - destruct (c =? sep)%N.
    + eexists _, _. split; [done|]. rewrite IH. split; [done|].
      destruct rest as [|y rest']; [done|]. by rewrite last_cons_cons.
    + rewrite IH. eauto.
Qed.

Lemma nth_last_default (l : list (list N)) :
  nth (length l - 1) l [] = default [] (last l).
Proof.
  rewrite nth_lookup, last_lookup. by rewrite Nat.sub_1_r.
Qed.

(** X21. [getInitials] looks at the first and the last word only: for a
    name with at least one blank it is the upper-cased first code unit of
    what precedes the first blank, followed by that of what follows the
    last blank, and whatever lies between is ignored.  Either part may
    be empty, so a name that starts or ends with a blank yields a single
    initial.  A name without a blank yields its first code unit. *)
Theorem getInitials_first_and_last toUpperCase (first middle last_ : list N) :
  32%N ∉ first → 32%N ∉ last_ →
  getInitials toUpperCase (Some (first ++ [32%N] ++ last_))
    = toUpperCase (take 1 first) ++ toUpperCase (take 1 last_) ∧
  getInitials toUpperCase (Some (first ++ [32%N] ++ middle ++ [32%N] ++ last_))
    = toUpperCase (take 1 first) ++ toUpperCase (take 1 last_) ∧
  (first ≠ [] → getInitials toUpperCase (Some first) = toUpperCase (take 1 first)).
Proof.
  intros Hf Hl.
  assert (∀ rest : list N,
    default [] (last (split 32 rest)) = last_ →
    getInitials toUpperCase (Some (first ++ 32%N :: rest))
    = toUpperCase (take 1 first) ++ toUpperCase (take 1 last_)) as Hgen.
  { intros rest Hlast. unfold getInitials.
    assert ((length (first ++ 32%N :: rest) =? 0)%nat = false) as ->.
    { rewrite length_app. simpl. apply Nat.eqb_neq. lia. }
    cbv zeta. rewrite split_first by done.
    destruct (split 32 rest) as [|segment segments] eqn:Hsplit;
      [by apply split_nonempty in Hsplit|].
    rewrite nth_last_default, last_cons_cons, Hlast. done. }
  split; [|split].
  - apply Hgen. by rewrite split_word.
  - apply Hgen. simpl.
    destruct (split_last 32 middle last_) as (segment & rest & -> & Hne & Hlast).
    destruct rest as [|y rest']; [done|].
    rewrite last_cons_cons, Hlast, split_word by done. done.
  - intros Hne. unfold getInitials. destruct first as [|c first']; [done|].
    cbn [length Nat.eqb]. cbv zeta. rewrite split_word by done. done.
Qed.

(** *** [groupBy] *)

Lemma groupBy_snoc array item key :
  groupBy (array ++ [item]) key = groupBy_step key (groupBy array key) item.
Proof. unfold groupBy. by rewrite fold_left_app. Qed.

Lemma groupBy_groups array key :
  (Forall (λ item, inherited (group_key key item) = false) array →
   ∃ groups,
     groupBy array key = Some groups ∧
     ∀ k, groups !! k =
          match filter (λ item, group_key key item = k) array with
          | [] => None
          | group => Some group
          end) ∧
  (Exists (λ item, inherited (group_key key item) = true) array →
   groupBy array key = None).
Proof.
  induction array as [|item array [IHok IHthrow]] using rev_ind.
  - split; [|by inversion 1]. intros _. exists ∅. split; [done|].
    intros k. by rewrite lookup_empty.
  - rewrite groupBy_snoc. split.
    + intros Hall. apply Forall_app in Hall as [Hall Hitem].
      rewrite Forall_singleton in Hitem.
      destruct (IHok Hall) as (groups & -> & Hspec).
      assert (∀ k, filter (λ i, group_key key i = k) (array ++ [item])
                   = filter (λ i, group_key key i = k) array ++
                     (if decide (group_key key item = k) then [item] else []))
        as Hfilter.
      { intros k. rewrite filter_app, filter_cons, filter_nil.
        by destruct (decide (group_key key item = k)). }
      unfold groupBy_step. cbv zeta. rewrite Hspec.
      destruct (filter (λ i, group_key key i = group_key key item) array)
        as [|x group] eqn:Hf.
      * rewrite Hitem. eexists. split; [reflexivity|]. intros k.
        rewrite Hfilter.
        destruct (decide (group_key key item = k)) as [<-|Hne].
        -- by rewrite lookup_insert_eq, Hf.
        -- by rewrite lookup_insert_ne, Hspec, app_nil_r.
      * eexists. split; [reflexivity|]. intros k.
        rewrite Hfilter.
        destruct (decide (group_key key item = k)) as [<-|Hne].
        -- by rewrite lookup_insert_eq, Hf.
        -- by rewrite lookup_insert_ne, Hspec, app_nil_r.
    + intros Hex. apply Exists_app in Hex as [Hex|Hex].
      { by rewrite (IHthrow Hex). }
      apply Exists_cons in Hex as [Hi|Hnil]; [|by inversion Hnil].
      cbv beta in Hi.
      destruct (decide (Forall (λ i, inherited (group_key key i) = false) array))
        as [Hall|Hnot].
      * destruct (IHok Hall) as (groups & -> & Hspec). unfold groupBy_step.
        cbv zeta. rewrite Hspec.
        destruct (filter (λ i, group_key key i = group_key key item) array)
          as [|x group] eqn:Hf; [by rewrite Hi|].
        assert (x ∈ filter (λ i, group_key key i = group_key key item) array)
          as Hx by (rewrite Hf; left).
        apply list_elem_of_filter in Hx as [Hkx Hin].
        rewrite Forall_forall in Hall. specialize (Hall x Hin). congruence.
      * apply not_Forall_Exists in Hnot; [|solve_decision].
        rewrite IHthrow; [done|].
        eapply Exists_impl; [exact Hnot|]. intros x Hx. simpl in Hx.
        by destruct (inherited (group_key key x)).
Qed.

(** X22. [groupBy] partitions the array by the value of the property:
    when every item's value is a primitive one and none is the name of a
    property inherited from
    [Object.prototype], each key that occurs is mapped to the items with
    that key, in the order of the array, and no other key is present;
    when some item's value is such a name ([toString], [constructor],
    ...), [groupBy] throws instead of returning. *)
Theorem groupBy_partitions (array : list (list (string * JsValue))) (key : string) :
  inherited key = false →
  Forall (λ item, primitive (get_prop key item)) array →
  (Forall (λ item, inherited (group_key key item) = false) array →
   ∃ groups,
     groupBy array key = Some groups ∧
     ∀ k, groups !! k =
          match filter (λ item, group_key key item = k) array with
          | [] => None
          | group => Some group
          end) ∧
  (Exists (λ item, inherited (group_key key item) = true) array →
   groupBy array key = None).
Proof. intros _ _. apply groupBy_groups. Qed.

End HelperProperties.

(** ** The statements at work on the scenarios *)

Import Scenario.

(** The scenario of the specification: ["A1"] and ["R1"] are stored, a
    call is answered 401, the refresh endpoint returns ["A2"], and the
    retry is answered 401 again. *)
Lemma refresh_then_single_retry_scenario :
  ∃ out w',
    @response_error refresh_granted (@api refresh_granted 1) expired signed_in
      = Some (out, w') ∧
    localStorage w' !! "access_token" = Some "A2" ∧
    wire_log w' =
      [@refresh_call refresh_granted "R1";
       ApiCall (Config.set_Authorization "Bearer A2" (properties_request true))] ∧
    out = Rejected (ThrownAxios
            (AxiosError.mk (Config.set_Authorization "Bearer A2" (properties_request true))
                           (Some (Response.mk 401 JsNull)))).
Proof.
  destruct (refresh_then_single_retry (env := refresh_granted) 1 expired signed_in
              (Response.mk 401 JsNull) "R1" 200
              (JsObject [("access", JsString "A2")]) (JsString "A2"))
    as (out & w' & retried & Hrun & Hlog & -> & _ & _ & Hstore & ->);
    [lia | reflexivity | reflexivity | reflexivity | reflexivity | done
    | reflexivity | reflexivity | reflexivity | exact I |].
  eexists. exists w'.
  split; [exact Hrun|]. split; [exact Hstore|]. split; [exact Hlog | reflexivity].
Defined.

(** A marked request that fails again, and a whole run of [api]. *)
Lemma retried_request_never_refreshes_scenario :
  @response_error refresh_granted (@api refresh_granted 1) expired_again signed_in
    = Some (Rejected (ThrownAxios expired_again), signed_in) ∧
  ∃ out w' calls,
    @api refresh_granted 2 (properties_request false) signed_in = Some (out, w') ∧
    wire_log w' = (wire_log signed_in ++ calls)%list ∧
    (refresh_count calls ≤ 1)%nat ∧ (length calls ≤ 3)%nat.
Proof.
  apply (retried_request_never_refreshes (env := refresh_granted) 2);
    [lia | reflexivity].
Defined.

(** The refresh endpoint refuses ["R1"]. *)
Lemma refresh_failure_tears_down_scenario :
  ∃ refreshError w',
    @response_error refresh_rejected (@api refresh_rejected 1) expired signed_in
      = Some (Rejected (ThrownAxios refreshError), w') ∧
    localStorage w' !! "access_token" = None ∧
    localStorage w' !! "refresh_token" = None ∧
    localStorage w' !! "user" = None ∧
    localStorage w' = logout_store (localStorage signed_in) ∧
    location_href w' = "/login" ∧
    wire_log w' = (wire_log signed_in ++ [@refresh_call refresh_rejected "R1"])%list.
Proof.
  apply (refresh_failure_tears_down (env := refresh_rejected) (@api refresh_rejected 1)
           expired signed_in (Response.mk 401 JsNull) "R1");
    [reflexivity | reflexivity | reflexivity | reflexivity | done | reflexivity].
Defined.

(** A 500 goes to the caller as it is. *)
Lemma non_auth_failure_passes_through_scenario :
  @response_error healthy (@api healthy 1) server_error signed_in
    = Some (Rejected (ThrownAxios server_error), signed_in).
Proof.
  apply (non_auth_failure_passes_through (env := healthy)). simpl. lia.
Defined.

Lemma paired_signed_in : paired (localStorage signed_in).
Proof. split; intros _; eexists; reflexivity. Defined.

Lemma healthy_issues_primitive_tokens : @issues_primitive_tokens healthy.
Proof.
  intros history call st body v Hn _ Hv. simpl in Hn.
  destruct call as [config|url body'].
  - destruct (String.eqb (Config.url config) "/auth/login/").
    + injection Hn as <- <-. by destruct Hv as [[= <-]|[= <-]].
    + destruct (String.eqb (Config.url config) "/auth/user/");
        injection Hn as <- <-; by destruct Hv as [[= <-]|[= <-]].
  - injection Hn as <- <-. by destruct Hv as [[= <-]|[= <-]].
Defined.

(** Pairing, from a signed-in browser. *)
Lemma session_pairing_preserved_scenario :
  (∃ out w', @login healthy 2 "amina" "secret" signed_in = Some (out, w') ∧
             paired (localStorage w')) ∧
  (∃ w', logout signed_in = Some (Fulfilled tt, w') ∧ paired (localStorage w')) ∧
  (∃ out w', @response_error healthy (@api healthy 2) expired signed_in = Some (out, w') ∧
             paired (localStorage w')).
Proof.
  apply (session_pairing_preserved (env := healthy) 2 "amina" "secret" expired signed_in);
    [lia | exact healthy_issues_primitive_tokens | exact paired_signed_in].
Defined.


(** ["A1"] becomes ["A2"]; ["R1"] stays. *)
Lemma refresh_updates_access_token_only_scenario :
  ∃ out w',
    @response_error refresh_granted (@api refresh_granted 1) expired signed_in
      = Some (out, w') ∧
    localStorage w' = <["access_token" := "A2"]> (localStorage signed_in) ∧
    localStorage w' !! "refresh_token" = Some "R1" ∧
    localStorage w' !! "user" = None.
Proof.
  destruct (refresh_updates_access_token_only (env := refresh_granted) 1 expired signed_in
              (Response.mk 401 JsNull) "R1" 200
              (JsObject [("access", JsString "A2")]) (JsString "A2"))
    as (out & w' & Hrun & Hstore & Hr & Hu & _);
    [lia | reflexivity | reflexivity | reflexivity | reflexivity | done
    | reflexivity | reflexivity | reflexivity | exact I |].
  exists out, w'. repeat split; [exact Hrun | exact Hstore | exact Hr | exact Hu].
Defined.

(** Re-login over an existing session while the profile endpoint is down. *)
Lemma login_writes_tokens_then_profile_scenario :
  ∃ e w',
    @login profile_unavailable 2 "amina" "secret" signed_in = Some (Rejected e, w') ∧
    localStorage w' = <["refresh_token" := "R2"]> (<["access_token" := "A2"]>
                        (localStorage signed_in)) ∧
    localStorage w' !! "user" = None.
Proof.
  destruct (login_writes_tokens_then_profile (env := profile_unavailable) 2
              "amina" "secret" signed_in 200 issued (JsString "A2") (JsString "R2"))
    as [_ Hfail];
    [lia | reflexivity | reflexivity | reflexivity | reflexivity | exact I
    | exact I |].
  destruct Hfail as (e & w' & Hrun & Hstore & Hu); [by split|].
  exists e, w'. repeat split; [exact Hrun | exact Hstore | exact Hu].
Defined.

(** A 401 while only an access token is stored. *)
Lemma missing_refresh_token_rejects_scenario :
  @response_error refresh_granted (@api refresh_granted 1) expired half_session
    = Some (Rejected (ThrownAxios
              (AxiosError.mk (properties_request true) (Some (Response.mk 401 JsNull)))),
            half_session).
Proof.
  apply (missing_refresh_token_rejects (env := refresh_granted) (@api refresh_granted 1)
           expired half_session (Response.mk 401 JsNull));
    reflexivity.
Defined.

(** Against C9 as stated: the login call succeeds, the profile call fails
    with a 500; [login] rejects and the store, empty before, is left with
    the new tokens and no profile. *)
Lemma login_leaves_partial_write :
  ∃ e w',
    @login profile_unavailable 2 "amina" "secret" signed_out = Some (Rejected e, w') ∧
    localStorage signed_out !! "access_token" = None ∧
    localStorage w' !! "access_token" = Some "A2" ∧
    localStorage w' !! "refresh_token" = Some "R2" ∧
    localStorage w' !! "user" = None.
Proof.
  eexists _, _. split; [lazy; reflexivity|]. repeat split.
Qed.

(** *** The further properties on the scenarios *)

Lemma api_transparent_recovery_scenario :
  ∃ w',
    @api token_expired 2 (properties_request false) signed_in
      = Some (Fulfilled (Response.mk 200 (JsString "fresh")), w') ∧
    localStorage w' !! "access_token" = Some "A2" ∧
    length (wire_log w') = 3%nat.
Proof.
  destruct (api_transparent_recovery (env := token_expired) 2
              (properties_request false) signed_in JsNull "R1" 200
              (JsObject [("access", JsString "A2")]) (JsString "A2")
              200 (JsString "fresh"))
    as (w' & Hrun & Hlog & Hstore & _);
    [lia | reflexivity | reflexivity | reflexivity | done | reflexivity
    | reflexivity | reflexivity | exact I | reflexivity | reflexivity |].
  exists w'. split; [exact Hrun|]. split.
  - rewrite Hstore. reflexivity.
  - rewrite Hlog. reflexivity.
Defined.

Lemma api_effect_on_browser_scenario :
  ∃ out w',
    @api refresh_rejected 2 (properties_request false) signed_in = Some (out, w') ∧
    user w' = user signed_in ∧ loading w' = loading signed_in.
Proof.
  destruct (api_effect_on_browser (env := refresh_rejected) 2
              (properties_request false) signed_in)
    as (out & w' & Hrun & Hu & Hl & _); [lia|].
  exists out, w'. split; [exact Hrun|]. split; [exact Hu | exact Hl].
Defined.

Lemma login_refused_signed_out_scenario :
  ∃ e,
    @login refresh_rejected 1 "amina" "wrong" signed_out
      = Some (Rejected e,
              with_call (ApiCall (login_request "amina" "wrong")) signed_out).
Proof.
  eexists.
  apply (login_refused_signed_out (env := refresh_rejected) 1 "amina" "wrong"
           signed_out JsNull); [lia | reflexivity | reflexivity].
Defined.

Lemma login_refused_over_stale_session_scenario :
  ∃ refreshError w',
    @login refresh_rejected 1 "amina" "wrong" signed_in
      = Some (Rejected (ThrownAxios refreshError), w') ∧
    localStorage w' = logout_store (localStorage signed_in) ∧
    location_href w' = "/login".
Proof.
  destruct (login_refused_over_stale_session (env := refresh_rejected) 1
              "amina" "wrong" signed_in JsNull "R1")
    as (refreshError & w' & Hrun & _ & Hstore & Hhref & _);
    [lia | reflexivity | done | reflexivity | reflexivity |].
  exists refreshError, w'. split; [exact Hrun|]. split; [exact Hstore | exact Hhref].
Defined.

Lemma login_credentials_sent_twice_scenario :
  ∃ out w' again,
    @login refresh_granted 2 "amina" "wrong" signed_in = Some (out, w') ∧
    Config.data again = login_body "amina" "wrong" ∧
    Config.headers again !! "Authorization" = Some "Bearer A2".
Proof.
  destruct (login_credentials_sent_twice (env := refresh_granted) 2
              "amina" "wrong" signed_in JsNull "R1" 200
              (JsObject [("access", JsString "A2")]) (JsString "A2"))
    as (out & w' & again & rest & Hrun & _ & _ & _ & Hdata & Hheader);
    [lia | reflexivity | done | reflexivity | reflexivity | reflexivity
    | reflexivity | exact I |].
  exists out, w', again. split; [exact Hrun|]. split; [exact Hdata | exact Hheader].
Defined.

Lemma login_then_requests_carry_token_scenario :
  ∃ w1 sent,
    @login healthy 1 "amina" "secret" signed_out = Some (Fulfilled tenant, w1) ∧
    request_interceptor user_request w1 = Some (Fulfilled sent, w1) ∧
    Config.headers sent !! "Authorization" = Some "Bearer A2".
Proof.
  destruct (login_then_requests_carry_token (env := healthy) 1 "amina" "secret"
              signed_out 200 issued (JsString "A2") (JsString "R2") 200 tenant)
    as (w1 & profile_call & Hrun & _ & _ & _ & Hlater);
    [lia | reflexivity | reflexivity | reflexivity | reflexivity | exact I
    | exact I | done | reflexivity | reflexivity |].
  destruct (Hlater user_request) as (sent & Hsent & Hheader).
  exists w1, sent. split; [exact Hrun|]. split; [exact Hsent | exact Hheader].
Defined.

Lemma resource_call_single_attempt_scenario :
  @Resource.run healthy 1 Resource.GetCurrentUser returning
    = Some (Fulfilled tenant,
            with_call (ApiCall (authorize (localStorage returning) user_request))
                      returning).
Proof.
  destruct (resource_call_single_attempt (env := healthy) 1
              Resource.GetCurrentUser returning) as [Hok _]; [lia|].
  apply (Hok 200 tenant); reflexivity.
Defined.

Lemma checkAuth_failure_signs_out_scenario :
  ∃ w',
    @checkAuth profile_unavailable 1 returning = Some (Fulfilled tt, w') ∧
    user w' = None ∧ loading w' = false ∧
    localStorage w' = logout_store (localStorage returning).
Proof.
  destruct (checkAuth_failure_signs_out (env := profile_unavailable) 1 returning
              "A1" tenant_json tenant)
    as (w' & Hrun & Hu & Hl & Hstore & _);
    [lia | reflexivity | done | reflexivity | done | reflexivity | by split |].
  exists w'. repeat split; assumption.
Defined.

Lemma checkAuth_success_refreshes_user_scenario :
  ∃ w',
    @checkAuth healthy 1 returning = Some (Fulfilled tt, w') ∧
    user w' = Some tenant ∧ loading w' = false ∧
    localStorage w' = <["user" := tenant_json]> (localStorage returning).
Proof.
  destruct (checkAuth_success_refreshes_user (env := healthy) 1 returning
              "A1" tenant_json tenant 200 tenant)
    as (w' & Hrun & Hu & Hl & Hstore & _);
    [lia | reflexivity | done | reflexivity | done | reflexivity | reflexivity
    | reflexivity |].
  exists w'. repeat split; assumption.
Defined.

Lemma checkAuth_unreadable_cache_scenario :
  @checkAuth healthy 2 returning_garbled
    = Some (Fulfilled tt, with_loading false returning_garbled) ∧
  @checkAuth healthy 2 (with_loading false returning_garbled)
    = Some (Fulfilled tt, with_loading false returning_garbled).
Proof.
  apply (checkAuth_unreadable_cache (env := healthy) 2 returning_garbled "A1" "{oops");
    [reflexivity | done | reflexivity | done | reflexivity].
Defined.

Lemma checkAuth_outcome_scenario :
  ∃ w',
    @checkAuth refresh_rejected 2 returning = Some (Fulfilled tt, w') ∧
    loading w' = false.
Proof.
  destruct (checkAuth_outcome (env := refresh_rejected) 2 returning)
    as (w' & Hrun & Hl & _); [lia | reflexivity |].
  exists w'. split; [exact Hrun | exact Hl].
Defined.

Lemma context_login_sets_user_on_success_scenario :
  ∃ out w1,
    @login healthy 2 "amina" "secret" signed_out = Some (out, w1) ∧
    user w1 = user signed_out.
Proof.
  destruct (context_login_sets_user_on_success (env := healthy) 2
              "amina" "secret" signed_out) as (out & w1 & Hrun & Hu & _); [lia|].
  exists out, w1. split; [exact Hrun | exact Hu].
Defined.


Lemma isValidEmail_guarantees_scenario :
  length (filter (λ c, c = 64%N) (Helpers.of_ascii "amina@example.com")) = 1%nat ∧
  Forall (λ c, Helpers.is_space c = false) (Helpers.of_ascii "amina@example.com") ∧
  (5 ≤ length (Helpers.of_ascii "amina@example.com"))%nat ∧
  head (Helpers.of_ascii "amina@example.com") ≠ Some 64%N ∧
  last (Helpers.of_ascii "amina@example.com") ≠ Some 64%N.
Proof.
  apply (isValidEmail_guarantees (Helpers.of_ascii "amina@example.com")).
  reflexivity.
Defined.

Lemma getInitials_first_and_last_scenario :
  Helpers.getInitials upper (Some (Helpers.of_ascii "john quincy doe"))
    = Helpers.of_ascii "JD" ∧
  Helpers.getInitials upper (Some (Helpers.of_ascii "john "))
    = Helpers.of_ascii "J".
Proof.
  destruct (getInitials_first_and_last upper (Helpers.of_ascii "john")
              (Helpers.of_ascii "quincy") (Helpers.of_ascii "doe"))
    as (_ & Hmiddle & _); [refine (bool_decide_unpack _ _); exact I .. |].
  destruct (getInitials_first_and_last upper (Helpers.of_ascii "john") [] [])
    as (Htrailing & _ & _); [refine (bool_decide_unpack _ _); exact I .. |].
  split; [exact Hmiddle | exact Htrailing].
Defined.

Lemma groupBy_partitions_scenario :
  ∃ groups,
    Helpers.groupBy units "status" = Some groups ∧
    groups !! "vacant" =
      Some [ [("id", JsString "1"); ("status", JsString "vacant")];
             [("id", JsString "3"); ("status", JsString "vacant")] ] ∧
    groups !! "reserved" = None.
Proof.
  destruct (groupBy_partitions units "status") as [Hok _];
    [reflexivity | repeat constructor |].
  destruct Hok as (groups & Hrun & Hspec).
  { repeat constructor. }
  exists groups. split; [exact Hrun|]. split; [apply (Hspec "vacant") | apply (Hspec "reserved")].
Defined.
